(** * PicoSync: device presence monitor, file change detector and sync
    dispatcher of [backend/config/core/pico_sync_manager.py]

    The development is a shallow embedding of the Python classes
    [PicoFileWatcher] and [PicoSyncManager].  Each method becomes a function
    that takes what the method reads (the object's attributes, the clock, the
    operating system's answers) and returns the updated attributes together
    with the list of effects it performed, in program order. *)

From Stdlib Require Import QArith Lqa Ascii.
From stdpp Require Import gmap strings list sorting pretty.

Set Warnings "-register-all".

(** ** Python values used by the program *)

(** [time.time()] readings and durations are floats in the source; they are
    modelled as exact rationals. *)
Definition Qltb (x y : Q) : bool := negb (Qle_bool y x).

Module Py.

(** [s.endswith(suffix)] *)
Definition endswith (s suffix : string) : bool :=
  String.prefix (String.rev suffix) (String.rev s).

(** [needle in haystack] on strings *)
Fixpoint contains (needle haystack : string) : bool :=
  String.prefix needle haystack ||
  match haystack with
  | EmptyString => false
  | String _ rest => contains needle rest
  end.

(** [s.lower()], on the ASCII letters *)
Definition lower_ascii (c : ascii) : ascii :=
  let n := nat_of_ascii c in
  if (65 <=? n)%nat && (n <=? 90)%nat then ascii_of_nat (n + 32) else c.

Fixpoint lower (s : string) : string :=
  match s with
  | EmptyString => EmptyString
  | String c rest => String (lower_ascii c) (lower rest)
  end.

(** truth value of a string, and of a string or [None] *)
Definition truthy_str (s : string) : bool :=
  match s with EmptyString => false | _ => true end.

Definition truthy (o : option string) : bool :=
  match o with Some s => truthy_str s | None => false end.

(** [os.path.join(a, b)] of [posixpath] *)
Definition join (a b : string) : string :=
  if String.prefix "/" b then b
  else if truthy_str a && negb (endswith a "/") then a +:+ "/" +:+ b
  else a +:+ b.

(** [os.path.basename(p)] of [posixpath]: what follows the last slash *)
Fixpoint basename_from (acc p : string) : string :=
  match p with
  | EmptyString => acc
  | String c rest =>
      if Ascii.eqb c "/" then basename_from EmptyString rest
      else basename_from (acc +:+ String c EmptyString) rest
  end.

Definition basename (p : string) : string := basename_from EmptyString p.

(** What a call returns or raises; an exception is kept as its text. *)
Inductive result (A : Type) : Type :=
  | Ok (a : A)
  | Raise (e : string).
Arguments Ok {A} a.
Arguments Raise {A} e.

End Py.

(** Log levels of [PicoSyncManager.log] *)
Inductive level := DEBUG | INFO | WARNING | ERROR | SUCCESS.

(** ** File change detector: [PicoFileWatcher] *)

Module Watcher.

(** A watchdog event, as far as the handler reads it. *)
Record fs_event := { is_directory : bool; src_path : string }.

(** The handler's attribute [self.last_modified] (the debounce ledger). *)
Record PicoFileWatcher := { last_modified : gmap string Q }.

Inductive effect :=
  | Sleep (seconds : Q)           (* time.sleep(seconds) *)
  | Callback (filepath : string). (* self.callback(filepath) *)

(** [on_modified]; [current_time] is what [time.time()] returns. *)
Definition on_modified (self : PicoFileWatcher) (current_time : Q)
    (event : fs_event) : PicoFileWatcher * list effect :=
  if is_directory event then (self, [])
  else if Py.endswith (src_path event) ".py" then
    let accept :=
      ({| last_modified :=
            <[src_path event := current_time]> (last_modified self) |},
       [Callback (src_path event)]) in
    match last_modified self !! src_path event with
    | Some last =>
        if Qltb (current_time - last) 1 then (self, []) else accept
    | None => accept
    end
  else (self, []).

(** [on_created] *)
Definition on_created (self : PicoFileWatcher) (event : fs_event)
    : PicoFileWatcher * list effect :=
  if negb (is_directory event) && Py.endswith (src_path event) ".py"
  then (self, [Sleep (1 # 10); Callback (src_path event)])
  else (self, []).

(** The observer thread hands the events to the handler one at a time. *)
Inductive dispatched :=
  | Modified (event : fs_event) (current_time : Q)
  | Created (event : fs_event).

Definition dispatch (self : PicoFileWatcher) (d : dispatched)
    : PicoFileWatcher * list effect :=
  match d with
  | Modified event current_time => on_modified self current_time event
  | Created event => on_created self event
  end.

Fixpoint run (self : PicoFileWatcher) (ds : list dispatched)
    : PicoFileWatcher * list effect :=
  match ds with
  | [] => (self, [])
  | d :: rest =>
      let '(self1, e1) := dispatch self d in
      let '(self2, e2) := run self1 rest in
      (self2, e1 ++ e2)
  end.

(** The change events among the effects. *)
Definition changes (effs : list effect) : list string :=
  omap (fun e => match e with Callback p => Some p | Sleep _ => None end) effs.

(** A burst on one path: an event at [fst b] followed by the events at
    [snd b]. *)
Definition file_event (path : string) : fs_event :=
  {| is_directory := false; src_path := path |}.

Definition burst_events (path : string) (b : Q * list Q) : list dispatched :=
  Modified (file_event path) (fst b)
    :: map (Modified (file_event path)) (snd b).

(** every later event of the burst is less than one second after its
    first *)
Definition within_window (b : Q * list Q) : Prop :=
  Forall (fun t => (t - fst b < 1)%Q) (snd b).

(** each burst starts more than one second after the start of the one
    before *)
Fixpoint spaced (prev : Q) (bs : list (Q * list Q)) : Prop :=
  match bs with
  | [] => True
  | b :: rest => (1 < fst b - prev)%Q /\ spaced (fst b) rest
  end.

(** [on_modified] accepts an event at [t]: no entry, or one at least a
    second old *)
Definition accepts (self : PicoFileWatcher) (path : string) (t : Q) : Prop :=
  match last_modified self !! path with
  | Some last => (1 <= t - last)%Q
  | None => True
  end.

End Watcher.

(** ** Device presence monitor: [PicoSyncManager.monitor_usb] *)

Module Monitor.
Import Py.

(** An entry of [serial.tools.list_ports.comports()]. *)
Record port_info := { device : string; description : string; hwid : string }.

(** What the operating system answers during one poll. *)
Record platform := {
  is_windows : bool;                           (* self.is_windows *)
  path_exists : string -> bool;                (* os.path.exists *)
  listdir : string -> result (list string);    (* os.listdir *)
  comports : result (list port_info)           (* comports() *)
}.

(** The loop's local [bootsel_detected] and the two attributes it writes. *)
Record state := {
  bootsel_detected : bool;
  pico_connected : bool;
  current_port : option string
}.

(** State at the start of [monitor_usb], after [__init__]. *)
Definition initial : state :=
  {| bootsel_detected := false; pico_connected := false;
     current_port := None |}.

Inductive callback :=
  | on_bootsel_detected (drive : string)
  | on_pico_connected
  | on_pico_disconnected.

Inductive message :=
  | UsbMonitoringError (e : string). (* f"USB monitoring error: {e}" *)

Inductive effect :=
  | After (ms : nat) (cb : callback)      (* self.root.after(ms, cb) *)
  | Log (m : message) (lvl : level)       (* self.log(m, lvl) *)
  | Sleep (seconds : Q).                  (* time.sleep(seconds) *)

Definition backslash : string := String (ascii_of_nat 92) EmptyString.

(** The drive letters ['A'..'Z'] *)
Definition letters : list string :=
  map (fun c => String c EmptyString)
      (String.list_ascii_of_string "ABCDEFGHIJKLMNOPQRSTUVWXYZ").

(** [find_bootsel_drive], Windows branch.  [os.path.join] of a drive root
    and a plain file name is their concatenation. *)
Fixpoint find_bootsel_windows (p : platform) (ls : list string)
    : option string :=
  match ls with
  | [] => None
  | letter :: rest =>
      let drive := letter +:+ ":" +:+ backslash in
      if path_exists p drive && path_exists p (drive +:+ "INFO_UF2.TXT")
      then Some drive
      else find_bootsel_windows p rest
  end.

(** inner loop [for folder in os.listdir(mount)] *)
Fixpoint find_in_mount (p : platform) (mount : string)
    (folders : list string) : option string :=
  match folders with
  | [] => None
  | folder :: rest =>
      let path := join mount folder in
      if path_exists p (join path "INFO_UF2.TXT") then Some path
      else find_in_mount p mount rest
  end.

(** outer loop [for mount in ['/media', '/mnt', '/Volumes']] *)
Fixpoint find_bootsel_posix (p : platform) (mounts : list string)
    : result (option string) :=
  match mounts with
  | [] => Ok None
  | mount :: rest =>
      if path_exists p mount then
        match listdir p mount with
        | Raise e => Raise e
        | Ok folders =>
            match find_in_mount p mount folders with
            | Some path => Ok (Some path)
            | None => find_bootsel_posix p rest
            end
        end
      else find_bootsel_posix p rest
  end.

Definition find_bootsel_drive (p : platform) : result (option string) :=
  if is_windows p then Ok (find_bootsel_windows p letters)
  else find_bootsel_posix p ["/media"; "/mnt"; "/Volumes"].

(** the test on one port *)
Definition is_pico (port : port_info) : bool :=
  contains "2e8a" (lower (hwid port))
  || contains "raspberry pi pico" (lower (description port))
  || contains "pico" (lower (description port)).

(** [for port in ports: if ...: pico_port = port.device; break] *)
Fixpoint find_pico_port (ports : list port_info) : option string :=
  match ports with
  | [] => None
  | port :: rest =>
      if is_pico port then Some (device port) else find_pico_port rest
  end.

(** The bootloader half of the [try] body, given what
    [find_bootsel_drive] returned.  The scheduled callback is given the
    drive this poll found. *)
Definition check_bootsel (st : state) (bootsel_drive : option string)
    : state * list effect :=
  if truthy bootsel_drive && negb (bootsel_detected st) then
    ({| bootsel_detected := true; pico_connected := pico_connected st;
        current_port := current_port st |},
     [After 0 (on_bootsel_detected (default EmptyString bootsel_drive))])
  else if negb (truthy bootsel_drive) && bootsel_detected st then
    ({| bootsel_detected := false; pico_connected := pico_connected st;
        current_port := current_port st |}, [])
  else (st, []).

(** The serial half, given the port found. *)
Definition check_serial (st : state) (pico_port : option string)
    : state * list effect :=
  if truthy pico_port && negb (pico_connected st) then
    ({| bootsel_detected := bootsel_detected st; pico_connected := true;
        current_port := pico_port |},
     [After 0 on_pico_connected])
  else if negb (truthy pico_port) && pico_connected st then
    ({| bootsel_detected := bootsel_detected st; pico_connected := false;
        current_port := None |},
     [After 0 on_pico_disconnected])
  else (st, []).

(** The body of the [try]: state and effects reached, and the exception
    that left it, if any. *)
Definition poll_body (st : state) (p : platform)
    : state * list effect * option string :=
  match find_bootsel_drive p with
  | Raise e => (st, [], Some e)
  | Ok bootsel_drive =>
      let '(st1, e1) := check_bootsel st bootsel_drive in
      match comports p with
      | Raise e => (st1, e1, Some e)
      | Ok ports =>
          let '(st2, e2) := check_serial st1 (find_pico_port ports) in
          (st2, e1 ++ e2, None)
      end
  end.

(** One turn of [while True]: the [try], its [except Exception], and the
    [time.sleep(1)]. *)
Definition poll (st : state) (p : platform) : state * list effect :=
  let '(st1, effs, exn) := poll_body st p in
  (st1,
   effs ++ match exn with
           | Some e => [Log (UsbMonitoringError e) ERROR]
           | None => []
           end ++ [Sleep 1]).

(** The loop, run over the answers of as many polls as are scripted. *)
Fixpoint monitor_usb (st : state) (script : list platform)
    : state * list effect :=
  match script with
  | [] => (st, [])
  | p :: rest =>
      let '(st1, e1) := poll st p in
      let '(st2, e2) := monitor_usb st1 rest in
      (st2, e1 ++ e2)
  end.

(** *** The transition events of the design

    The design names four events.  The callbacks the monitor schedules
    are read as events as follows; no callback stands for
    [BootloaderLost]. *)
Inductive transition :=
  | BootloaderDetected (path : string)
  | BootloaderLost
  | Connected (port : string)
  | Disconnected.

(** [st] is the state when the callback was scheduled. *)
Definition transition_of (st : state) (e : effect) : option transition :=
  match e with
  | After _ (on_bootsel_detected drive) => Some (BootloaderDetected drive)
  | After _ on_pico_connected =>
      Some (Connected (default EmptyString (current_port st)))
  | After _ on_pico_disconnected => Some Disconnected
  | Log _ _ | Sleep _ => None
  end.

(** the events of the callbacks one poll schedules *)
Definition tick_events (st : state) (p : platform) : list transition :=
  let '(st1, effs) := poll st p in omap (transition_of st1) effs.

Fixpoint emitted (st : state) (script : list platform) : list transition :=
  match script with
  | [] => []
  | p :: rest => tick_events st p ++ emitted (fst (poll st p)) rest
  end.

(** The transitions one poll takes, read off the two recorded flags
    before and after it; [drive] is the drive the poll found. *)
Definition bootsel_edge (before after : state) (drive : string)
    : list transition :=
  if negb (bootsel_detected before) && bootsel_detected after
  then [BootloaderDetected drive]
  else if bootsel_detected before && negb (bootsel_detected after)
  then [BootloaderLost]
  else [].

Definition serial_edge (before after : state) : list transition :=
  if negb (pico_connected before) && pico_connected after
  then [Connected (default EmptyString (current_port after))]
  else if pico_connected before && negb (pico_connected after)
  then [Disconnected]
  else [].

Definition found_drive (p : platform) : string :=
  match find_bootsel_drive p with
  | Ok (Some drive) => drive
  | _ => EmptyString
  end.

Definition tick_transitions (st : state) (p : platform)
    : list transition :=
  let st1 := fst (poll st p) in
  bootsel_edge st st1 (found_drive p) ++ serial_edge st st1.

Fixpoint taken (st : state) (script : list platform) : list transition :=
  match script with
  | [] => []
  | p :: rest => tick_transitions st p ++ taken (fst (poll st p)) rest
  end.

(** every transition but [BootloaderLost] has a callback *)
Definition has_callback (t : transition) : bool :=
  match t with BootloaderLost => false | _ => true end.

Definition is_serial_event (t : transition) : bool :=
  match t with Connected _ | Disconnected => true | _ => false end.

Definition is_sleep (e : effect) : bool :=
  match e with Sleep _ => true | _ => false end.

(** The transitions of the two halves of a poll, from what each found. *)
Definition bootsel_transitions (st : state) (bootsel_drive : option string)
    : list transition :=
  if truthy bootsel_drive && negb (bootsel_detected st)
  then [BootloaderDetected (default EmptyString bootsel_drive)]
  else if negb (truthy bootsel_drive) && bootsel_detected st
  then [BootloaderLost]
  else [].

Definition serial_transitions (st : state) (pico_port : option string)
    : list transition :=
  if truthy pico_port && negb (pico_connected st)
  then [Connected (default EmptyString pico_port)]
  else if negb (truthy pico_port) && pico_connected st
  then [Disconnected]
  else [].

(** The port one poll finds, or the exception of [comports()]. *)
Definition found_port (p : platform) : result (option string) :=
  match comports p with
  | Ok ports => Ok (find_pico_port ports)
  | Raise e => Raise e
  end.

(** Two polls report the same: the same drive or exception, and the same
    port or exception. *)
Definition same_report (p p' : platform) : Prop :=
  find_bootsel_drive p' = find_bootsel_drive p
  /\ found_port p' = found_port p.

(** the enumeration of poll [p] raises [e]: in [find_bootsel_drive], or
    else in [comports()] *)
Definition enumeration_raises (p : platform) (e : string) : Prop :=
  match find_bootsel_drive p with
  | Raise e' => e' = e
  | Ok _ => comports p = Raise e
  end.

(** *** Scripted polls on a POSIX host *)

Definition no_device : platform :=
  {| is_windows := false;
     path_exists := fun path => String.eqb path "/media";
     listdir := fun _ => Ok [];
     comports := Ok [] |}.

Definition bootloader_present : platform :=
  {| is_windows := false;
     path_exists := fun path =>
       String.eqb path "/media"
       || String.eqb path "/media/RPI-RP2/INFO_UF2.TXT";
     listdir := fun _ => Ok ["RPI-RP2"];
     comports := Ok [] |}.

Definition pico_port_info : port_info :=
  {| device := "/dev/ttyACM0";
     description := "Board in FS mode - Board CDC";
     hwid := "USB VID:PID=2E8A:0005 SER=E6614103E7 LOCATION=1-2:1.0" |}.

Definition serial_present : platform :=
  {| is_windows := false;
     path_exists := fun path => String.eqb path "/media";
     listdir := fun _ => Ok [];
     comports := Ok [pico_port_info] |}.

Definition both_present : platform :=
  {| is_windows := false;
     path_exists := path_exists bootloader_present;
     listdir := listdir bootloader_present;
     comports := Ok [pico_port_info] |}.

(** the same report as [serial_present], from a host with a second,
    unrelated serial port *)
Definition serial_present_again : platform :=
  {| is_windows := false;
     path_exists := fun path => String.eqb path "/media";
     listdir := fun _ => Ok [];
     comports :=
       Ok [pico_port_info;
           {| device := "/dev/ttyS0"; description := "ttyS0";
              hwid := "PNP0501" |}] |}.

(** a poll in which [comports()] raises *)
Definition comports_fails : platform :=
  {| is_windows := false;
     path_exists := fun path => String.eqb path "/media";
     listdir := fun _ => Ok [];
     comports := Raise "could not open port" |}.

(** a poll in which [os.listdir('/media')] raises *)
Definition listdir_fails : platform :=
  {| is_windows := false;
     path_exists := fun path => String.eqb path "/media";
     listdir := fun _ => Raise "[Errno 13] Permission denied: '/media'";
     comports := Ok [] |}.

Definition connected_state : state :=
  {| bootsel_detected := false; pico_connected := true;
     current_port := Some "/dev/ttyACM0" |}.

End Monitor.

(** ** JSON values, as [json.load] returns them and [self.config] holds them

    Numbers are kept as integers. *)
Inductive jvalue :=
  | JNull
  | JBool (b : bool)
  | JNum (n : Z)
  | JStr (s : string)
  | JList (l : list jvalue)
  | JDict (d : gmap string jvalue).

Module Json.

(** truth value of a Python object *)
Definition truthy (v : jvalue) : bool :=
  match v with
  | JNull => false
  | JBool b => b
  | JNum n => negb (n =? 0)%Z
  | JStr s => Py.truthy_str s
  | JList l => match l with [] => false | _ => true end
  | JDict d => negb (bool_decide (d = ∅))
  end.

(** [config.get(key, dflt)] on a dict *)
Definition get (config : gmap string jvalue) (key : string)
    (dflt : jvalue) : jvalue :=
  default dflt (config !! key).

End Json.

(** ** A JSON writer and a reader for flat objects

    An instance of [json.dump] and [json.load] to run the configuration
    round trip on.  The writer uses compact separators; the reader accepts
    objects whose values are strings, [true], [false] or [null]. *)

Module JsonText.
Import Py.

Definition dquote : ascii := ascii_of_nat 34.
Definition bslash : ascii := ascii_of_nat 92.

Fixpoint escape (s : string) : string :=
  match s with
  | EmptyString => EmptyString
  | String c rest =>
      if Ascii.eqb c dquote || Ascii.eqb c bslash
      then String bslash (String c (escape rest))
      else String c (escape rest)
  end.

Definition quote (s : string) : string :=
  String dquote (escape s) +:+ String dquote EmptyString.

Definition member (key value rest : string) : string :=
  quote key +:+ ": " +:+ value
    +:+ (if truthy_str rest then ", " +:+ rest else EmptyString).

Fixpoint dumps (v : jvalue) : string :=
  match v with
  | JNull => "null"
  | JBool b => if b then "true" else "false"
  | JNum n => pretty n
  | JStr s => quote s
  | JList l =>
      "[" +:+ foldr (fun x rest =>
                       dumps x +:+ (if truthy_str rest
                                    then ", " +:+ rest else EmptyString))
                    EmptyString l +:+ "]"
  | JDict d =>
      "{" +:+ map_fold (fun key x rest => member key (dumps x) rest)
                       EmptyString d +:+ "}"
  end.

Inductive token :=
  | TLBrace | TRBrace | TColon | TComma
  | TString (s : string)
  | TWord (s : string).

Definition is_space (c : ascii) : bool :=
  let n := nat_of_ascii c in
  (n =? 32)%nat || (n =? 10)%nat || (n =? 13)%nat || (n =? 9)%nat.

Definition flush (word : string) (ts : list token) : list token :=
  if truthy_str word then TWord word :: ts else ts.

(** Tokens of a text, last first.  [in_string] holds the string literal
    being read, [escaped] says a backslash came before, [word] collects
    the letters of a bare word. *)
Fixpoint lex (text : string) (in_string : option string) (escaped : bool)
    (word : string) (ts : list token) : option (list token) :=
  match text with
  | EmptyString =>
      match in_string with
      | Some _ => None
      | None => Some (flush word ts)
      end
  | String c rest =>
      match in_string with
      | Some acc =>
          if escaped then
            if Ascii.eqb c dquote || Ascii.eqb c bslash
            then lex rest (Some (acc +:+ String c EmptyString)) false word ts
            else None
          else if Ascii.eqb c bslash then lex rest in_string true word ts
          else if Ascii.eqb c dquote
          then lex rest None false word (TString acc :: ts)
          else lex rest (Some (acc +:+ String c EmptyString)) false word ts
      | None =>
          if is_space c then lex rest None false EmptyString (flush word ts)
          else if Ascii.eqb c dquote
          then lex rest (Some EmptyString) false EmptyString (flush word ts)
          else if Ascii.eqb c "{"
          then lex rest None false EmptyString (TLBrace :: flush word ts)
          else if Ascii.eqb c "}"
          then lex rest None false EmptyString (TRBrace :: flush word ts)
          else if Ascii.eqb c ":"
          then lex rest None false EmptyString (TColon :: flush word ts)
          else if Ascii.eqb c ","
          then lex rest None false EmptyString (TComma :: flush word ts)
          else lex rest None false (word +:+ String c EmptyString) ts
      end
  end.

Definition value (t : token) : option jvalue :=
  match t with
  | TString s => Some (JStr s)
  | TWord "true" => Some (JBool true)
  | TWord "false" => Some (JBool false)
  | TWord "null" => Some JNull
  | _ => None
  end.

(** the members of an object, up to its closing brace; a repeated key
    keeps its last value *)
Fixpoint members (ts : list token) (d : gmap string jvalue)
    : option (gmap string jvalue) :=
  match ts with
  | TString key :: TColon :: t :: TRBrace :: [] =>
      v ← value t; Some (<[key := v]> d)
  | TString key :: TColon :: t :: TComma :: rest =>
      v ← value t; members rest (<[key := v]> d)
  | _ => None
  end.

Definition loads (text : string) : result jvalue :=
  match lex text None false EmptyString [] with
  | Some ts =>
      match reverse ts with
      | [TLBrace; TRBrace] => Ok (JDict ∅)
      | TLBrace :: rest =>
          match members rest ∅ with
          | Some d => Ok (JDict d)
          | None => Raise "JSONDecodeError"
          end
      | _ => Raise "JSONDecodeError"
      end
  | None => Raise "JSONDecodeError"
  end.

End JsonText.

(** ** External processes and [subprocess.run] *)

Module Subprocess.

(** What an external process does once started: it exits after some
    seconds, it never exits, or it cannot be started. *)
Inductive process :=
  | Exits (seconds : Q) (returncode : Z) (stdout stderr : string)
  | Hangs
  | FailsToStart (e : string).

Inductive exn :=
  | CalledProcessError (returncode : Z)
  | TimeoutExpired
  | OtherError (e : string).

Record CompletedProcess :=
  { returncode : Z; stdout : string; stderr : string }.

Inductive run_outcome :=
  | Returns (r : CompletedProcess)
  | Raises (e : exn)
  | Blocks.  (* the call never returns *)

(** [subprocess.run(argv, check=check, timeout=timeout)]: with a timeout
    the child is killed when it expires and [TimeoutExpired] is raised;
    without one the call waits for the child to exit. *)
Definition run (check : bool) (timeout : option Q) (p : process)
    : run_outcome :=
  match p with
  | FailsToStart e => Raises (OtherError e)
  | Hangs =>
      match timeout with
      | Some _ => Raises TimeoutExpired
      | None => Blocks
      end
  | Exits seconds rc out err =>
      if match timeout with Some t => Qltb t seconds | None => false end
      then Raises TimeoutExpired
      else if check && negb (rc =? 0)%Z then Raises (CalledProcessError rc)
      else Returns {| returncode := rc; stdout := out; stderr := err |}
  end.

End Subprocess.

(** ** Sync dispatcher: [process_sync_queue], [sync_single_file],
    [sync_directory], and the gateway calls of [detect_pico_model] and
    [check_micropython] *)

Module Dispatcher.
Import Py Subprocess.

(** The tuples [('file', filepath)] and [('full', directory)] put on
    [self.sync_queue]. *)
Inductive SyncWorkItem :=
  | SingleFile (filepath : string)
  | FullDirectory (directory : string).

(** A directory's contents, in the order the operating system lists
    them. *)
Inductive entry :=
  | File (name : string)
  | Dir (name : string) (children : list entry).

(** What the world answers while one work item is processed. *)
Record world := {
  (* self.pico_connected at its k-th read, counted from 0 *)
  connected_at : nat -> bool;
  (* the process started for an argument vector *)
  spawn : list string -> process;
  (* the contents of a directory *)
  tree : string -> list entry
}.

Inductive ui :=
  | LabelSyncing (filename : string)       (* f"Syncing {filename}..." *)
  | LabelSyncingDirectory                  (* "Syncing directory..." *)
  | LabelProgress (f : string) (i t : nat) (* f"Syncing {f} ({i}/{t})..." *)
  | LabelIdle                              (* "Idle" *)
  | ProgressStart
  | ProgressStop
  | QueueClear                             (* queue_listbox.delete(0, END) *)
  | QueueInsert (name : string)            (* queue_listbox.insert(END, name) *)
  | QueueDeleteFirst                       (* queue_listbox.delete(0) *)
  | RefreshFiles.

Inductive message :=
  | Synced (filename : string)             (* f"Synced: {filename}" *)
  | FailedToSync (filename : string) (e : exn)
                                (* f"Failed to sync {filename}: {e}" *)
  | DirectorySyncComplete (total : nat)
                                (* f"Directory sync complete: {total} files" *)
  | DirectorySyncError (e : exn)           (* f"Directory sync error: {e}" *)
  | SyncError (e : exn)                    (* f"Sync error: {e}" *)
  | MicroPythonCheckStderr (stderr : string).
                                (* f"MicroPython check stderr: {...}" *)

Inductive effect :=
  | Run (argv : list string) (check : bool) (timeout : option Q)
  | After (ms : nat) (u : ui)
  | Log (m : message) (lvl : level).

(** How a method call ends. *)
Inductive ending :=
  | Returned
  | Raised (e : exn)
  | Blocked.

Definition cp_argv (filepath filename : string) : list string :=
  ["mpremote"; "connect"; "auto"; "cp"; filepath; ":" +:+ filename].

(** [sync_single_file] *)
Definition sync_single_file (w : world) (filepath : string)
    : list effect * ending :=
  if negb (connected_at w 0) then ([], Returned)
  else
    let filename := basename filepath in
    let argv := cp_argv filepath filename in
    let before :=
      [After 0 (LabelSyncing filename); After 0 ProgressStart;
       Run argv true None] in
    let finally := [After 0 ProgressStop; After 0 LabelIdle] in
    match run true None (spawn w argv) with
    | Returns _ =>
        (before ++ [Log (Synced filename) SUCCESS; After 0 RefreshFiles]
           ++ finally, Returned)
    | Raises (CalledProcessError rc) =>
        (before
           ++ [Log (FailedToSync filename (CalledProcessError rc)) ERROR]
           ++ finally, Returned)
    | Raises e => (before ++ finally, Raised e)
    | Blocks => (before, Blocked)
    end.

(** *** Enumeration of the files of a batch *)

Definition filenames (es : list entry) : list string :=
  omap (fun e => match e with File n => Some n | Dir _ _ => None end) es.

Definition dirnames (es : list entry) : list string :=
  omap (fun e => match e with Dir n _ => Some n | File _ => None end) es.

(** [os.walk(top)], top-down: the triple of a directory, then the walks
    of its subdirectories *)
Fixpoint walk_entry (parent : string) (e : entry)
    : list (string * list string * list string) :=
  match e with
  | File _ => []
  | Dir name children =>
      let top := join parent name in
      (top, dirnames children, filenames children)
        :: flat_map (walk_entry top) children
  end.

Definition os_walk (top : string) (children : list entry)
    : list (string * list string * list string) :=
  (top, dirnames children, filenames children)
    :: flat_map (walk_entry top) children.

(** the two nested [for] loops over [os.walk(directory)] *)
Definition walk_py_files (directory : string) (children : list entry)
    : list string :=
  flat_map
    (fun '(root, _, names) =>
       map (join root) (filter (fun n => endswith n ".py" = true) names))
    (os_walk directory children).

Section WithGlob.

(** [Path(directory).glob(pattern)], from [pathlib]: the paths it yields
    for the directory's contents, as strings, each with its
    [is_file()]; or the exception it raises on the pattern. *)
Variable path_glob :
  string -> list entry -> string -> result (list (string * bool)).

(** the list [files] built by [sync_directory] *)
Definition batch_files (config : gmap string jvalue) (w : world)
    (directory : string) : result (list string) :=
  let pattern := Json.get config "file_types" (JStr "*.py") in
  if Json.truthy (Json.get config "sync_subdirs" (JBool true)) then
    Ok (walk_py_files directory (tree w directory))
  else
    match pattern with
    | JStr pat =>
        match path_glob directory (tree w directory) pat with
        | Ok found =>
            Ok (map fst (filter (fun f => snd f = true) found))
        | Raise e => Raise e
        end
    | _ => Raise "TypeError"
    end.

(** the loop [for i, filepath in enumerate(files)], from index [i] *)
Fixpoint sync_each (w : world) (total i : nat) (files : list string)
    : list effect * ending :=
  match files with
  | [] => ([], Returned)
  | filepath :: rest =>
      if negb (connected_at w (S i)) then ([], Returned) (* break *)
      else
        let filename := basename filepath in
        let argv := cp_argv filepath filename in
        let before :=
          [After 0 (LabelProgress filename (S i) total);
           Run argv true None] in
        match run true None (spawn w argv) with
        | Returns _ =>
            let '(effs, e) := sync_each w total (S i) rest in
            (before
               ++ [Log (Synced filename) SUCCESS; After 0 QueueDeleteFirst]
               ++ effs, e)
        | Raises (CalledProcessError rc) =>
            let '(effs, e) := sync_each w total (S i) rest in
            (before
               ++ [Log (FailedToSync filename (CalledProcessError rc))
                     ERROR]
               ++ effs, e)
        | Raises e => (before, Raised e)
        | Blocks => (before, Blocked)
        end
  end.

(** [sync_directory] *)
Definition sync_directory (config : gmap string jvalue) (w : world)
    (directory : string) : list effect * ending :=
  if negb (connected_at w 0) then ([], Returned)
  else
    let before := [After 0 LabelSyncingDirectory; After 0 ProgressStart] in
    let finally :=
      [After 0 ProgressStop; After 0 LabelIdle; After 0 QueueClear] in
    match batch_files config w directory with
    | Raise e =>
        (before ++ [Log (DirectorySyncError (OtherError e)) ERROR]
           ++ finally, Returned)
    | Ok files =>
        let display :=
          After 0 QueueClear
            :: map (fun f => After 0 (QueueInsert (basename f))) files in
        match sync_each w (length files) 0 files with
        | (effs, Returned) =>
            (before ++ display ++ effs
               ++ [Log (DirectorySyncComplete (length files)) INFO;
                   After 0 RefreshFiles]
               ++ finally, Returned)
        | (effs, Raised e) =>
            (before ++ display ++ effs
               ++ [Log (DirectorySyncError e) ERROR] ++ finally, Returned)
        | (effs, Blocked) => (before ++ display ++ effs, Blocked)
        end
    end.

(** One item taken off the queue by [process_sync_queue], with the
    loop's [except Exception]. *)
Definition process_item (config : gmap string jvalue) (w : world)
    (item : SyncWorkItem) : list effect * ending :=
  let '(effs, e) :=
    match item with
    | SingleFile filepath => sync_single_file w filepath
    | FullDirectory directory => sync_directory config w directory
    end in
  match e with
  | Raised ex => (effs ++ [Log (SyncError ex) ERROR], Returned)
  | _ => (effs, e)
  end.

(** [process_sync_queue]: one turn of [while True] per world; on an
    empty queue [get(timeout=1)] raises [queue.Empty] and the loop
    continues.  Returns the queue left, the effects, and whether the
    thread is blocked. *)
Fixpoint process_sync_queue (config : gmap string jvalue)
    (ws : list world) (sync_queue : list SyncWorkItem)
    : list SyncWorkItem * list effect * ending :=
  match ws with
  | [] => (sync_queue, [], Returned)
  | w :: ws' =>
      match sync_queue with
      | [] => process_sync_queue config ws' []
      | item :: rest =>
          match process_item config w item with
          | (effs, Blocked) => (rest, effs, Blocked)
          | (effs, _) =>
              let '(q, effs', e') := process_sync_queue config ws' rest in
              (q, effs ++ effs', e')
          end
      end
  end.

End WithGlob.

(** *** Device identification *)

Definition detect_argv : list string :=
  ["mpremote"; "connect"; "auto"; "exec";
   "import sys; print(sys.implementation.name)"].

(** [detect_pico_model], with its bare [except]: the effects, how the
    call ends, the new [self.pico_model] and the text of
    [self.model_label]. *)
Definition detect_pico_model (w : world) (pico_model : option string)
    : list effect * ending * option string * string :=
  let call := [Run detect_argv false (Some 5%Q)] in
  match run false (Some 5%Q) (spawn w detect_argv) with
  | Returns result =>
      if contains "rp2040" (lower (stdout result))
      then (call, Returned, Some "RP2040", "Pico (RP2040)")
      else if contains "rp2350" (lower (stdout result))
      then (call, Returned, Some "RP2350", "Pico 2 (RP2350)")
      else (call, Returned, pico_model, "Unknown Model")
  | Raises _ => (call, Returned, pico_model, "Model Detection Failed")
  | Blocks => (call, Blocked, pico_model, EmptyString)
  end.

(** [check_micropython]; [mpremote_cmd] is the command chosen by
    [shutil.which]. *)
Definition check_micropython (w : world) (mpremote_cmd : string)
    (current_port : option string) : list effect * ending * bool :=
  let port := if truthy current_port
              then default EmptyString current_port else "auto" in
  let argv := [mpremote_cmd; "connect"; port; "ls"] in
  let call := [Run argv false (Some 5%Q)] in
  match run false (Some 5%Q) (spawn w argv) with
  | Returns result =>
      (call ++ (if truthy_str (stderr result)
                then [Log (MicroPythonCheckStderr (stderr result)) DEBUG]
                else []),
       Returned, (returncode result =? 0)%Z)
  | Raises _ => (call, Returned, false)
  | Blocks => (call, Blocked, false)
  end.

(** *** Reading the effects *)

(** the copy invocations: the local file of each [mpremote ... cp] *)
Definition copies (effs : list effect) : list (list string) :=
  omap (fun e => match e with Run argv _ _ => Some argv | _ => None end) effs.

Definition logs (effs : list effect) : list (message * level) :=
  omap (fun e => match e with Log m l => Some (m, l) | _ => None end) effs.

Definition timeouts (effs : list effect) : list (option Q) :=
  omap (fun e => match e with Run _ _ t => Some t | _ => None end) effs.

(** *** What a batch should produce, and example worlds *)

(** the argument vector of the copy of one file *)
Definition copy_of (filepath : string) : list string :=
  cp_argv filepath (basename filepath).

(** the copy process of a file exits with status [rc] *)
Definition exit_status (w : world) (filepath : string) (rc : Z) : Prop :=
  exists seconds out err,
    spawn w (copy_of filepath) = Exits seconds rc out err.

(** the log entry of a copy that exited with status [rc] *)
Definition outcome_log (filepath : string) (rc : Z) : message * level :=
  if (rc =? 0)%Z then (Synced (basename filepath), SUCCESS)
  else (FailedToSync (basename filepath) (CalledProcessError rc), ERROR).

Definition quick_ok : process :=
  Exits (1 # 2) 0 EmptyString EmptyString.

Definition quick_fail : process :=
  Exits (1 # 2) 1 EmptyString "mpremote: failed to access device".

(** a project directory with three Python files and one other file *)
Definition project : list entry :=
  [File "boot.py"; File "main.py"; File "notes.txt"; File "util.py"].

(** the device stays connected, [main.py] fails to copy *)
Definition middle_fails : world :=
  {| connected_at := fun _ => true;
     spawn := fun argv =>
       if bool_decide (argv = copy_of "/home/u/proj/main.py")
       then quick_fail else quick_ok;
     tree := fun _ => project |}.


(** the device is recorded as disconnected when the item is taken *)
Definition unplugged : world :=
  {| connected_at := fun _ => false;
     spawn := fun _ => quick_ok;
     tree := fun _ => project |}.

(** the copy process never exits *)
Definition hung : world :=
  {| connected_at := fun _ => true;
     spawn := fun _ => Hangs;
     tree := fun _ => project |}.

Definition healthy : world :=
  {| connected_at := fun _ => true;
     spawn := fun _ => quick_ok;
     tree := fun _ => project |}.

(** the settings: text files as the file types, subdirectories on *)
Definition txt_config : gmap string jvalue :=
  <["file_types" := JStr "*.txt"]> (<["sync_subdirs" := JBool true]> ∅).

Definition txt_project : world :=
  {| connected_at := fun _ => true;
     spawn := fun _ => quick_ok;
     tree := fun _ => [File "a.txt"; File "b.py"; File "c.txt"] |}.

End Dispatcher.

(** ** Configuration: [load_config], [save_config] and the values read at
    startup *)

Module Config.
Import Py.

(** The Tk variables [save_config] reads. *)
Record settings := {
  dir_var : string;
  auto_sync_enabled : bool;
  file_types_var : string;
  sync_subdirs_var : bool;
  auto_flash_var : bool;
  show_notifications_var : bool;
  log_level_var : string
}.

(** [CONFIG_FILE] on disk *)
Inductive file :=
  | Missing
  | Unreadable
  | Content (text : string).

(** The [value=] each Tk variable is created with at startup. *)
Record initial_values := {
  init_dir : jvalue;
  init_auto_sync : jvalue;
  init_file_types : jvalue;
  init_sync_subdirs : jvalue;
  init_auto_flash : jvalue;
  init_show_notifications : jvalue;
  init_log_level : jvalue
}.

(** the values a settings record stands for *)
Definition values_of (s : settings) : initial_values :=
  {| init_dir := JStr (dir_var s);
     init_auto_sync := JBool (auto_sync_enabled s);
     init_file_types := JStr (file_types_var s);
     init_sync_subdirs := JBool (sync_subdirs_var s);
     init_auto_flash := JBool (auto_flash_var s);
     init_show_notifications := JBool (show_notifications_var s);
     init_log_level := JStr (log_level_var s) |}.

(** the assignments [self.config[key] = var.get()] of [save_config] *)
Definition updated (config : gmap string jvalue) (s : settings)
    : gmap string jvalue :=
  <["log_level" := JStr (log_level_var s)]>
  (<["show_notifications" := JBool (show_notifications_var s)]>
  (<["auto_flash" := JBool (auto_flash_var s)]>
  (<["sync_subdirs" := JBool (sync_subdirs_var s)]>
  (<["file_types" := JStr (file_types_var s)]>
  (<["auto_sync" := JBool (auto_sync_enabled s)]>
  (<["sync_directory" := JStr (dir_var s)]> config)))))).

(** the [self.config.get(key, default)] calls of [__init__] and the
    [create_*] methods; on anything but a dict [get] raises *)
Definition startup_values (config : jvalue) : result initial_values :=
  match config with
  | JDict d =>
      Ok {| init_dir := Json.get d "sync_directory" (JStr EmptyString);
            init_auto_sync := Json.get d "auto_sync" (JBool true);
            init_file_types := Json.get d "file_types" (JStr "*.py");
            init_sync_subdirs := Json.get d "sync_subdirs" (JBool true);
            init_auto_flash := Json.get d "auto_flash" (JBool false);
            init_show_notifications :=
              Json.get d "show_notifications" (JBool true);
            init_log_level := Json.get d "log_level" (JStr "INFO") |}
  | _ => Raise "AttributeError"
  end.

Section WithJson.

(** [json.dump(obj, f, indent=2)], the text it writes, and
    [json.load(f)], from the [json] module. *)
Variable json_dump : jvalue -> string.
Variable json_load : string -> result jvalue.

(** [load_config] *)
Definition load_config (config_file : file) : jvalue :=
  match config_file with
  | Content text =>
      match json_load text with
      | Ok v => v
      | Raise _ => JDict ∅
      end
  | Unreadable | Missing => JDict ∅
  end.

(** [save_config]: the new [self.config], the file afterwards, and
    whether [open(CONFIG_FILE, 'w')] raised. *)
Definition save_config (config : gmap string jvalue) (s : settings)
    (writable : bool) (config_file : file)
    : gmap string jvalue * file * result unit :=
  let config' := updated config s in
  if writable
  then (config', Content (json_dump (JDict config')), Ok tt)
  else (config', config_file, Raise "PermissionError").

(** the next start of the program on the file *)
Definition startup (config_file : file) : result initial_values :=
  startup_values (load_config config_file).

End WithJson.

(** settings saved from the Settings tab *)
Definition saved_settings : settings :=
  {| dir_var := "/home/u/proj";
     auto_sync_enabled := true;
     file_types_var := "*.py";
     sync_subdirs_var := false;
     auto_flash_var := false;
     show_notifications_var := true;
     log_level_var := "DEBUG" |}.

End Config.

(** ** More of the monitor: where a drive is looked for, and the history
    of the recorded flags *)

Module MonitorMore.
Import Py Monitor.

(** The sentinel file of a drive, with the path [find_bootsel_drive]
    builds for it. *)
Definition sentinel (p : platform) (drive : string) : string :=
  if is_windows p then drive +:+ "INFO_UF2.TXT"
  else join drive "INFO_UF2.TXT".

Definition has_sentinel (p : platform) (drive : string) : bool :=
  path_exists p (sentinel p drive).

Definition drive_root (letter : string) : string :=
  letter +:+ ":" +:+ backslash.

(** The places [find_bootsel_drive] looks at, in order: the drive roots
    that exist on Windows; elsewhere the folders of the mount directories
    that exist, up to the first one that cannot be listed. *)
Definition windows_candidates (p : platform) (ls : list string)
    : list string :=
  filter (fun drive => path_exists p drive = true) (map drive_root ls).

Fixpoint posix_candidates (p : platform) (mounts : list string)
    : list string :=
  match mounts with
  | [] => []
  | mount :: rest =>
      if path_exists p mount then
        match listdir p mount with
        | Ok folders => map (join mount) folders ++ posix_candidates p rest
        | Raise _ => []
        end
      else posix_candidates p rest
  end.

Definition candidates (p : platform) : list string :=
  if is_windows p then windows_candidates p letters
  else posix_candidates p ["/media"; "/mnt"; "/Volumes"].

(** the first error of [os.listdir] on a mount directory that exists *)
Fixpoint listing_error (p : platform) (mounts : list string)
    : option string :=
  match mounts with
  | [] => None
  | mount :: rest =>
      if path_exists p mount then
        match listdir p mount with
        | Ok _ => listing_error p rest
        | Raise e => Some e
        end
      else listing_error p rest
  end.

Definition first_listing_error (p : platform) : option string :=
  if is_windows p then None
  else listing_error p ["/media"; "/mnt"; "/Volumes"].

(** The two flags of a state, and what a transition does to them: each
    transition is possible from one value of its flag only. *)
Definition flags (st : state) : bool * bool :=
  (bootsel_detected st, pico_connected st).

Definition apply_transition (f : bool * bool) (t : transition)
    : option (bool * bool) :=
  match t, f with
  | BootloaderDetected _, (false, connected) => Some (true, connected)
  | BootloaderLost, (true, connected) => Some (false, connected)
  | Connected _, (detected, false) => Some (detected, true)
  | Disconnected, (detected, true) => Some (detected, false)
  | _, _ => None
  end.

Fixpoint replay (f : bool * bool) (ts : list transition)
    : option (bool * bool) :=
  match ts with
  | [] => Some f
  | t :: rest =>
      match apply_transition f t with
      | Some f' => replay f' rest
      | None => None
      end
  end.

(** [self.current_port] is set exactly when [self.pico_connected] is. *)
Definition port_recorded (st : state) : Prop :=
  pico_connected st = truthy (current_port st).

(** a connected Pico that shows up under another device name *)
Definition moved_port : platform :=
  {| is_windows := false;
     path_exists := fun path => String.eqb path "/media";
     listdir := fun _ => Ok [];
     comports :=
       Ok [{| device := "/dev/ttyACM1";
              description := "Board in FS mode - Board CDC";
              hwid := "USB VID:PID=2E8A:0005" |}] |}.

End MonitorMore.

(** ** More of the dispatcher: what a batch holds and how calls end *)

Module DispatcherMore.
Import Py Subprocess Dispatcher.



(** A name as a directory listing gives it: not empty, no slash. *)
Fixpoint no_slash (s : string) : bool :=
  match s with
  | EmptyString => true
  | String c rest => negb (Ascii.eqb c "/") && no_slash rest
  end.

Definition plain_name (s : string) : bool := truthy_str s && no_slash s.

(** the files picked from one directory of the walk *)
Definition picked (root : string) (names : list string) : list string :=
  map (join root) (filter (fun n => endswith n ".py" = true) names).


(** The chip the identification command names, if it answers within its
    five seconds: rp2040 is looked for first. *)
Definition identified (w : world) : option string :=
  match spawn w detect_argv with
  | Exits seconds _ out _ =>
      if Qltb 5 seconds then None
      else if contains "rp2040" (lower out) then Some "RP2040"
      else if contains "rp2350" (lower out) then Some "RP2350"
      else None
  | Hangs | FailsToStart _ => None
  end.

(** [self.pico_model] after a [detect_pico_model] per connection, one world
    each *)
Definition recorded_model (pico_model : option string) (ws : list world)
    : option string :=
  foldl (fun model w => snd (fst (detect_pico_model w model))) pico_model ws.


(** the last clauses of [sync_single_file] and of [sync_directory] *)
Definition single_file_finally : list effect :=
  [After 0 ProgressStop; After 0 LabelIdle].

Definition directory_finally : list effect :=
  [After 0 ProgressStop; After 0 LabelIdle; After 0 QueueClear].

(** some copy of the batch is started and never exits *)
Definition blocks (ending_ : ending) : bool :=
  match ending_ with Blocked => true | _ => false end.

(** the effects of the items of a queue, each processed in its turn *)
Definition effects_in_turn
    (path_glob : string -> list entry -> string -> result (list (string * bool)))
    (config : gmap string jvalue) (ws : list world)
    (sync_queue : list SyncWorkItem) : list effect :=
  concat (zip_with (fun w item => fst (process_item path_glob config w item))
                   ws sync_queue).



(** [mpremote] is not installed: the second copy cannot be started *)
Definition second_cannot_start : world :=
  {| connected_at := fun _ => true;
     spawn := fun argv =>
       if bool_decide (argv = copy_of "/home/u/proj/main.py")
       then FailsToStart "[Errno 2] No such file or directory: 'mpremote'"
       else quick_ok;
     tree := fun _ => project |}.

End DispatcherMore.

(** ** Board identification and the choice of firmware:
    [detect_model_from_bootsel], [flash_firmware_bootsel], [flash_firmware],
    [wait_for_bootsel] *)

Module Firmware.
Import Py Monitor MonitorMore.

Definition url_pico : string :=
  "https://micropython.org/download/RPI_PICO/RPI_PICO-latest.uf2".

Definition url_pico2 : string :=
  "https://micropython.org/download/RPI_PICO2/RPI_PICO2-latest.uf2".

(** [detect_model_from_bootsel], with its bare [except]; [read_text] is
    [open(path, 'r').read()]. *)
Definition detect_model_from_bootsel (p : platform)
    (read_text : string -> result string) (drive : string)
    : option string :=
  match read_text (sentinel p drive) with
  | Ok content =>
      if contains "RP2350" content then Some "Pico 2 (RP2350)"
      else if contains "RP2040" content then Some "Pico (RP2040)"
      else None
  | Raise _ => None
  end.

(** the firmware [do_flash] of [flash_firmware_bootsel] downloads: the URL
    and the local file name *)
Definition bootsel_firmware (model : option string) : string * string :=
  if truthy model && contains "RP2350" (default EmptyString model)
  then (url_pico2, "RPI_PICO2-latest.uf2")
  else (url_pico, "RPI_PICO-latest.uf2").

(** [os.path.join(a, b)] of the host, for a name [b] as a listing gives it
    and [a] not a bare drive: on Windows the separator is a backslash,
    added unless [a] already ends with one or with a slash. *)
Definition host_join (p : platform) (a b : string) : string :=
  if is_windows p then
    if endswith a backslash || endswith a "/" || negb (truthy_str a)
    then a +:+ b else a +:+ backslash +:+ b
  else join a b.

Inductive message :=
  | FoundBootselDrive (path : string). (* f"Found BOOTSEL drive at {path}" *)

Inductive effect :=
  | Log (m : message) (lvl : level)
  | Sleep (seconds : Q).

(** the first loop of one round of [wait_for_bootsel]: the drive letters *)
Fixpoint drive_with_sentinel (p : platform) (ls : list string)
    : option string :=
  match ls with
  | [] => None
  | letter :: rest =>
      let drive := drive_root letter in
      if path_exists p drive
         && path_exists p (host_join p drive "INFO_UF2.TXT")
      then Some drive
      else drive_with_sentinel p rest
  end.

(** the inner loop over the folders of a mount directory *)
Fixpoint folder_with_sentinel (p : platform) (mount : string)
    (folders : list string) : option string :=
  match folders with
  | [] => None
  | folder :: rest =>
      let path := host_join p mount folder in
      if path_exists p (host_join p path "INFO_UF2.TXT") then Some path
      else folder_with_sentinel p mount rest
  end.

(** the second loop of one round: the mount directories *)
Fixpoint mount_with_sentinel (p : platform) (mounts : list string)
    : result (option string) :=
  match mounts with
  | [] => Ok None
  | mount :: rest =>
      if path_exists p mount then
        match listdir p mount with
        | Raise e => Raise e
        | Ok folders =>
            match folder_with_sentinel p mount folders with
            | Some path => Ok (Some path)
            | None => mount_with_sentinel p rest
            end
        end
      else mount_with_sentinel p rest
  end.

(** one round of the loop of [wait_for_bootsel], before its sleep *)
Definition look_for_bootsel (p : platform) : result (option string) :=
  match drive_with_sentinel p letters with
  | Some drive => Ok (Some drive)
  | None => mount_with_sentinel p ["/media"; "/mnt"; "/Volumes"]
  end.

(** [wait_for_bootsel]: [rounds] rounds are left, [host k] is what the
    operating system answers in round [k]. *)
Fixpoint wait_rounds (host : nat -> platform) (k rounds : nat)
    : list effect * result (option string) :=
  match rounds with
  | O => ([], Ok None)
  | S rounds' =>
      match look_for_bootsel (host k) with
      | Raise e => ([], Raise e)
      | Ok (Some path) =>
          ([Log (FoundBootselDrive path) INFO], Ok (Some path))
      | Ok None =>
          let '(effs, r) := wait_rounds host (S k) rounds' in
          (Sleep 1 :: effs, r)
      end
  end.

Definition wait_for_bootsel (host : nat -> platform)
    : list effect * result (option string) :=
  wait_rounds host 0 60.

Definition is_sleep (e : effect) : bool :=
  match e with Sleep _ => true | Log _ _ => false end.

(** the seconds slept *)
Definition sleeps (effs : list effect) : nat :=
  length (filter (fun e => is_sleep e = true) effs).

End Firmware.

(** ** More of the configuration: the keys a save writes and the values a
    start falls back to *)

Module ConfigMore.
Import Py Config.

(** the keys [save_config] assigns *)
Definition managed_keys : list string :=
  ["sync_directory"; "auto_sync"; "file_types"; "sync_subdirs";
   "auto_flash"; "show_notifications"; "log_level"].




(** an earlier version's file, with a key this version does not write *)
Definition older_config : gmap string jvalue :=
  <["window_geometry" := JStr "800x600"]> (<["auto_sync" := JBool false]> ∅).

End ConfigMore.

(** ** The two file lists: [refresh_local_files], [refresh_pico_files],
    [upload_selected] and [delete_selected] *)

Module Files.
Import Py Subprocess Dispatcher.

(** *** Python string methods used on the listing *)

(** [c.isspace()], for the code points below 256 *)
Definition isspace (c : ascii) : bool :=
  let n := nat_of_ascii c in
  ((9 <=? n)%nat && (n <=? 13)%nat) || ((28 <=? n)%nat && (n <=? 32)%nat)
  || (n =? 133)%nat || (n =? 160)%nat.

Definition newline : ascii := ascii_of_nat 10.

Fixpoint lstrip (s : string) : string :=
  match s with
  | EmptyString => EmptyString
  | String c rest => if isspace c then lstrip rest else s
  end.

Fixpoint rstrip (s : string) : string :=
  match s with
  | EmptyString => EmptyString
  | String c rest =>
      match rstrip rest with
      | EmptyString => if isspace c then EmptyString else String c EmptyString
      | r => String c r
      end
  end.

(** [s.strip()] *)
Definition strip (s : string) : string := rstrip (lstrip s).

(** [s.split(sep)] for a separator of one character: the pieces between
    the separators, empty ones included *)
Fixpoint split_at (sep : ascii) (s : string) : list string :=
  match s with
  | EmptyString => [EmptyString]
  | String c rest =>
      if Ascii.eqb c sep then EmptyString :: split_at sep rest
      else
        match split_at sep rest with
        | piece :: pieces => String c piece :: pieces
        | [] => [String c EmptyString]
        end
  end.

(** [s.split()]: the maximal runs of characters that are not whitespace *)
Fixpoint split (s : string) : list string :=
  match s with
  | EmptyString => []
  | String c rest =>
      if isspace c then split rest
      else
        match rest with
        | EmptyString => [String c EmptyString]
        | String c' _ =>
            if isspace c' then String c EmptyString :: split rest
            else
              match split rest with
              | word :: words => String c word :: words
              | [] => [String c EmptyString]
              end
        end
  end.

(** [sep.join(parts)] *)
Fixpoint str_join (sep : string) (parts : list string) : string :=
  match parts with
  | [] => EmptyString
  | [p] => p
  | p :: rest => p +:+ sep +:+ str_join sep rest
  end.

(** [Path.suffix] of [pathlib]: with [i = name.rfind('.')], the text from
    [i] on when [0 < i < len(name) - 1], else the empty string *)
Fixpoint from_last_dot (s : string) : option string :=
  match s with
  | EmptyString => None
  | String c rest =>
      match from_last_dot rest with
      | Some p => Some p
      | None => if Ascii.eqb c "." then Some s else None
      end
  end.

Definition suffix (name : string) : string :=
  match from_last_dot name with
  | Some p =>
      if (String.length p <? String.length name)%nat
         && (1 <? String.length p)%nat
      then p else EmptyString
  | None => EmptyString
  end.

(** *** Effects *)

Inductive message :=
  | ErrorRefreshingLocal (e : string)
                            (* f"Error refreshing local files: {e}" *)
  | ErrorRefreshingPico (e : exn)
                            (* f"Error refreshing Pico files: {e}" *)
  | Deleted (filename : string)               (* f"Deleted: {filename}" *)
  | FailedToDelete (filename : string) (e : exn).
                            (* f"Failed to delete {filename}: {e}" *)

Inductive dialog :=
  | SelectFilesToUpload      (* showinfo("No Selection", "... to upload") *)
  | SelectFilesToDelete      (* showinfo("No Selection", "... to delete") *)
  | ConfirmDelete (n : nat). (* askyesno(f"Delete {n} file(s) from Pico?") *)

Inductive effect :=
  | LocalTreeClear
  | LocalTreeInsert (text size modified : string)
  | PicoTreeClear
  | AfterPicoTreeInsert (text size : string)  (* root.after(0, insert) *)
  | Run (argv : list string) (check : bool)   (* subprocess.run, no timeout *)
  | Log (m : message) (lvl : level)
  | Show (d : dialog)
  | Put (item : SyncWorkItem).                (* sync_queue.put *)

(** *** [refresh_local_files] *)

Record stat_result := { st_size : nat; st_mtime_text : string }.

Definition entry_name (e : entry) : string :=
  match e with File name => name | Dir name _ => name end.

Definition is_file (e : entry) : bool :=
  match e with File _ => true | Dir _ _ => false end.

(** the order of [sorted] on the paths of one directory: their names as
    strings *)
Definition by_name (a b : entry) : Prop :=
  String.le (entry_name a) (entry_name b).

#[global] Instance by_name_dec : RelDecision by_name.
Proof. intros a b. unfold by_name. apply _. Defined.

(** the loop over the sorted items; a [stat] that raises ends it in the
    [except] clause *)
Fixpoint local_rows (stat : string -> result stat_result)
    (items : list entry) : list effect :=
  match items with
  | [] => []
  | item :: rest =>
      let name := entry_name item in
      if String.prefix "." name then local_rows stat rest
      else if is_file item && String.eqb (suffix name) ".py" then
        match stat name with
        | Ok st =>
            LocalTreeInsert name (pretty (st_size st) +:+ " bytes")
                            (st_mtime_text st)
              :: local_rows stat rest
        | Raise e => [Log (ErrorRefreshingLocal e) ERROR]
        end
      else local_rows stat rest
  end.

Definition refresh_local_files (dir_var : string)
    (iterdir : string -> result (list entry))
    (stat : string -> result stat_result) : list effect :=
  LocalTreeClear ::
  if negb (truthy_str dir_var) then []
  else
    match iterdir dir_var with
    | Ok items => local_rows stat (merge_sort by_name items)
    | Raise e => [Log (ErrorRefreshingLocal e) ERROR]
    end.

(** *** [refresh_pico_files] *)

Definition ls_argv : list string := ["mpremote"; "connect"; "auto"; "ls"].

(** one line of the listing: the row it gives, as (name, size) *)
Definition parse_line (line : string) : option (string * string) :=
  if truthy_str line && negb (String.prefix "ls" line) then
    match split line with
    | size :: part :: parts => Some (str_join " " (part :: parts), size)
    | _ => None
    end
  else None.

Definition rows (stdout : string) : list (string * string) :=
  omap parse_line (split_at newline (strip stdout)).

(** [refresh_pico_files], with the thread it starts; the ending is the
    thread's *)
Definition refresh_pico_files (pico_connected : bool)
    (spawn : list string -> process) : list effect * ending :=
  if negb pico_connected then ([], Returned)
  else
    let before := [PicoTreeClear; Run ls_argv false] in
    match run false None (spawn ls_argv) with
    | Returns result =>
        if (returncode result =? 0)%Z then
          (before ++ map (fun r => AfterPicoTreeInsert r.1 r.2)
                         (rows (stdout result)), Returned)
        else (before, Returned)
    | Raises e => (before ++ [Log (ErrorRefreshingPico e) ERROR], Returned)
    | Blocks => (before, Blocked)
    end.

(** *** [upload_selected] and [delete_selected] *)

(** the selection is given by the texts of the selected rows *)
Definition upload_selected (selected : list string) (dir_var : string)
    : list effect :=
  match selected with
  | [] => [Show SelectFilesToUpload]
  | _ => map (fun filename => Put (SingleFile (join dir_var filename)))
             selected
  end.

Definition rm_argv (filename : string) : list string :=
  ["mpremote"; "connect"; "auto"; "rm"; ":" +:+ filename].

(** the loop [for item in selected] *)
Fixpoint delete_each (spawn : list string -> process)
    (selected : list string) : list effect * ending :=
  match selected with
  | [] => ([], Returned)
  | filename :: rest =>
      let argv := rm_argv filename in
      match run true None (spawn argv) with
      | Returns _ =>
          let '(effs, e) := delete_each spawn rest in
          (Run argv true :: Log (Deleted filename) INFO :: effs, e)
      | Raises (CalledProcessError rc) =>
          let '(effs, e) := delete_each spawn rest in
          (Run argv true
             :: Log (FailedToDelete filename (CalledProcessError rc)) ERROR
             :: effs, e)
      | Raises e => ([Run argv true], Raised e)
      | Blocks => ([Run argv true], Blocked)
      end
  end.

(** [delete_selected]; [confirmed] is the answer to the dialog.  The
    second component is how the method ends, the third how the refresh
    thread it starts ends. *)
Definition delete_selected (selected : list string) (confirmed : bool)
    (pico_connected : bool) (spawn : list string -> process)
    : list effect * ending * ending :=
  match selected with
  | [] => ([Show SelectFilesToDelete], Returned, Returned)
  | _ =>
      let ask := Show (ConfirmDelete (length selected)) in
      if confirmed then
        match delete_each spawn selected with
        | (effs, Returned) =>
            let '(effs', e') := refresh_pico_files pico_connected spawn in
            (ask :: effs ++ effs', Returned, e')
        | (effs, e) => (ask :: effs, e, Returned)
        end
      else ([ask], Returned, Returned)
  end.

(** *** Reading the effects *)

Definition shown_local (effs : list effect) : list string :=
  omap (fun e => match e with
                 | LocalTreeInsert text _ _ => Some text
                 | _ => None
                 end) effs.


Definition queued (effs : list effect) : list SyncWorkItem :=
  omap (fun e => match e with Put item => Some item | _ => None end) effs.

(** the log entry of a deletion whose process exited with status [rc] *)
Definition deletion_log (filename : string) (rc : Z) : effect :=
  if (rc =? 0)%Z then Log (Deleted filename) INFO
  else Log (FailedToDelete filename (CalledProcessError rc)) ERROR.

(** the process that deletes a file exits with status [rc] *)
Definition rm_exits (spawn : list string -> process) (filename : string)
    (rc : Z) : Prop :=
  exists seconds out err,
    spawn (rm_argv filename) = Exits seconds rc out err.

(** the effects of deletions that all ran to their exit *)
Definition deletions (selected : list string) (codes : list Z)
    : list effect :=
  concat (zip_with (fun filename rc =>
                      [Run (rm_argv filename) true; deletion_log filename rc])
                   selected codes).


(** [mpremote] is not installed *)
Definition no_mpremote (argv : list string) : process :=
  FailsToStart "FileNotFoundError".

(** the device is recorded as connected when the item is taken, and every
    process started for it exits *)
Definition ready (w : world) : Prop :=
  connected_at w 0 = true
  /\ forall argv, exists seconds rc out err,
       spawn w argv = Exits seconds rc out err.

(** a project directory with a hidden file and a subdirectory *)
Definition local_project : list entry :=
  [File "main.py"; File ".secrets.py"; File "notes.txt";
   Dir "lib" [File "util.py"]; File "boot.py"].

Definition stat_ok (name : string) : result stat_result :=
  Ok {| st_size := 120; st_mtime_text := "2024-01-01 10:00" |}.

(** *** The listing [mpremote ls] prints *)

Fixpoint all_chars (f : ascii -> bool) (s : string) : bool :=
  match s with
  | EmptyString => true
  | String c rest => f c && all_chars f rest
  end.

Definition is_digit (c : ascii) : bool :=
  let n := nat_of_ascii c in (48 <=? n)%nat && (n <=? 57)%nat.

(** a size: one or more decimal digits *)
Definition digits (s : string) : bool :=
  truthy_str s && all_chars is_digit s.

(** a name without whitespace *)
Definition one_word (s : string) : bool :=
  truthy_str s && all_chars (fun c => negb (isspace c)) s.

Fixpoint spaces (n : nat) : string :=
  match n with
  | O => EmptyString
  | S n' => String " " (spaces n')
  end.

(** a file of the device: the width its size is padded by, its size and
    its name *)
Record listed := { pad : nat; size_text : string; file_name : string }.

Definition ls_line (f : listed) : string :=
  spaces (pad f) +:+ size_text f +:+ String " " (file_name f).

Fixpoint ls_lines (fs : list listed) : string :=
  match fs with
  | [] => EmptyString
  | f :: rest => ls_line f +:+ String newline (ls_lines rest)
  end.

(** the header line and one line per file *)
Definition ls_stdout (fs : list listed) : string :=
  "ls :" +:+ String newline (ls_lines fs).

Definition no_newline (c : ascii) : bool := negb (Ascii.eqb c newline).

Definition well_formed (f : listed) : bool :=
  digits (size_text f) && one_word (file_name f).

Definition device_files : list listed :=
  [{| pad := 9; size_text := "139"; file_name := "boot.py" |};
   {| pad := 8; size_text := "2048"; file_name := "main.py" |};
   {| pad := 11; size_text := "0"; file_name := "lib/" |}].

Definition lists_device_files (argv : list string) : process :=
  Exits 1 0 (ls_stdout device_files) EmptyString.

End Files.

(** ** Watching the project directory: [start_file_watching],
    [stop_file_watching], and the handlers that call them *)

Module Watch.
Import Py Subprocess Dispatcher Config.

(** An [Observer] object of [watchdog]: the directory it was scheduled on,
    the [recursive] flag, and whether its thread runs. *)
Record observer := {
  watched : string;
  recursive : bool;
  is_alive : bool
}.

(** The attributes of [PicoSyncManager] the handlers read and write.
    [observers] holds every [Observer] created so far, oldest first;
    [file_observer] is the position of the one [self.file_observer] refers
    to. *)
Record state := {
  vars : settings;
  config : gmap string jvalue;
  config_file : file;
  pico_connected : bool;
  file_observer : option nat;
  observers : list observer;
  sync_queue : list SyncWorkItem
}.

(** What the operating system answers during one handler. *)
Record host := {
  path_exists : string -> bool;
  observer_starts : bool;     (* [Observer.start()] does not raise *)
  writable : bool             (* [CONFIG_FILE] can be opened for writing *)
}.

Inductive message :=
  | StartedWatching (directory : string)  (* f"Started watching: {dir}" *)
  | StoppedFileWatching                   (* "Stopped file watching" *)
  | FileChanged (name : string)           (* f"File changed: {name}" *)
  | StartingFullSync                      (* "Starting full sync..." *)
  | AutoSyncEnabled
  | AutoSyncDisabled
  | SyncDirectorySetTo (directory : string)
  | PicoConnected                         (* "Pico connected!" *)
  | PicoDisconnected.                     (* "Pico disconnected" *)

(** methods embedded elsewhere, called or scheduled by the handlers *)
Inductive method :=
  | DetectPicoModel
  | CheckAndFlash
  | RefreshFiles
  | RefreshLocalFiles.

Inductive dialog :=
  | NoDirectory       (* showwarning("No Directory", ...) *)
  | SettingsSaved.    (* showinfo("Settings Saved", ...) *)

Inductive effect :=
  | Log (m : message) (lvl : level)
  | UpdateStatus (text color : string)
  | ModelLabel (text : string)
  | Buttons (enabled : bool)   (* the state of the four device buttons *)
  | PicoTreeClear
  | Call (m : method)
  | After (ms : nat) (m : method)
  | Show (d : dialog)
  | RootDestroy.

Definition set_vars (st : state) (v : settings) : state :=
  {| vars := v; config := config st; config_file := config_file st;
     pico_connected := pico_connected st;
     file_observer := file_observer st; observers := observers st;
     sync_queue := sync_queue st |}.

Definition set_saved (st : state) (c : gmap string jvalue) (f : file)
    : state :=
  {| vars := vars st; config := c; config_file := f;
     pico_connected := pico_connected st;
     file_observer := file_observer st; observers := observers st;
     sync_queue := sync_queue st |}.

Definition set_connected (st : state) (b : bool) : state :=
  {| vars := vars st; config := config st; config_file := config_file st;
     pico_connected := b;
     file_observer := file_observer st; observers := observers st;
     sync_queue := sync_queue st |}.

Definition set_observers (st : state) (fo : option nat)
    (os : list observer) : state :=
  {| vars := vars st; config := config st; config_file := config_file st;
     pico_connected := pico_connected st;
     file_observer := fo; observers := os;
     sync_queue := sync_queue st |}.

Definition put (st : state) (item : SyncWorkItem) : state :=
  {| vars := vars st; config := config st; config_file := config_file st;
     pico_connected := pico_connected st;
     file_observer := file_observer st; observers := observers st;
     sync_queue := sync_queue st ++ [item] |}.

Definition set_dir (v : settings) (directory : string) : settings :=
  {| dir_var := directory;
     auto_sync_enabled := auto_sync_enabled v;
     file_types_var := file_types_var v;
     sync_subdirs_var := sync_subdirs_var v;
     auto_flash_var := auto_flash_var v;
     show_notifications_var := show_notifications_var v;
     log_level_var := log_level_var v |}.

Definition set_auto_sync (v : settings) (b : bool) : settings :=
  {| dir_var := dir_var v;
     auto_sync_enabled := b;
     file_types_var := file_types_var v;
     sync_subdirs_var := sync_subdirs_var v;
     auto_flash_var := auto_flash_var v;
     show_notifications_var := show_notifications_var v;
     log_level_var := log_level_var v |}.

(** the variables of the Settings tab are edited; the directory and the
    Auto Sync box are not on that tab *)
Definition set_tab (v tab : settings) : settings :=
  {| dir_var := dir_var v;
     auto_sync_enabled := auto_sync_enabled v;
     file_types_var := file_types_var tab;
     sync_subdirs_var := sync_subdirs_var tab;
     auto_flash_var := auto_flash_var tab;
     show_notifications_var := show_notifications_var tab;
     log_level_var := log_level_var tab |}.

Definition stopped (o : observer) : observer :=
  {| watched := watched o; recursive := recursive o; is_alive := false |}.

(** [self.file_observer and self.file_observer.is_alive()] *)
Definition observer_alive (st : state) : bool :=
  match file_observer st with
  | Some i =>
      match observers st !! i with
      | Some o => is_alive o
      | None => false
      end
  | None => false
  end.

(** [stop_file_watching] *)
Definition stop_file_watching (st : state) : state * list effect :=
  match file_observer st with
  | Some i =>
      if observer_alive st then
        (set_observers st None (alter stopped i (observers st)),
         [Log StoppedFileWatching INFO])
      else (st, [])
  | None => (st, [])
  end.

(** [start_file_watching] *)
Definition start_file_watching (h : host) (st : state)
    : state * list effect * ending :=
  let directory := dir_var (vars st) in
  if negb (truthy_str directory) then (st, [], Returned)
  else if negb (path_exists h directory) then (st, [], Returned)
  else
    let '(st1, effs) := stop_file_watching st in
    let o := {| watched := directory;
                recursive :=
                  Json.truthy (Json.get (config st1) "sync_subdirs"
                                        (JBool true));
                is_alive := observer_starts h |} in
    let st2 :=
      set_observers st1 (Some (length (observers st1)))
                    (observers st1 ++ [o]) in
    if observer_starts h
    then (st2, effs ++ [Log (StartedWatching directory) INFO], Returned)
    else (st2, effs, Raised (OtherError "OSError")).

(** [on_file_changed] *)
Definition on_file_changed (st : state) (filepath : string)
    : state * list effect :=
  (put st (SingleFile filepath), [Log (FileChanged (basename filepath)) INFO]).

(** [sync_all_files] *)
Definition sync_all_files (st : state) : state * list effect :=
  if negb (truthy_str (dir_var (vars st))) then (st, [])
  else (put st (FullDirectory (dir_var (vars st))),
        [Log StartingFullSync INFO]).

(** [manual_sync] *)
Definition manual_sync (st : state) : state * list effect :=
  if negb (truthy_str (dir_var (vars st))) then (st, [Show NoDirectory])
  else sync_all_files st.

Section WithJson.

Variable json_dump : jvalue -> string.

(** [save_config] on the attributes *)
Definition save_config (h : host) (st : state) : state * ending :=
  let '(c, f, r) :=
    Config.save_config json_dump (config st) (vars st) (writable h)
                       (config_file st) in
  (set_saved st c f,
   match r with Ok _ => Returned | Raise e => Raised (OtherError e) end).

(** [stop_file_watching(); start_file_watching()] *)
Definition restart (h : host) (st : state)
    : state * list effect * ending :=
  let '(st1, effs1) := stop_file_watching st in
  let '(st2, effs2, e) := start_file_watching h st1 in
  (st2, effs1 ++ effs2, e).

(** [toggle_auto_sync], called after the box has changed the variable *)
Definition toggle_auto_sync (h : host) (st : state)
    : state * list effect * ending :=
  let '(st1, effs, e) :=
    if auto_sync_enabled (vars st) then
      if pico_connected st && truthy_str (dir_var (vars st)) then
        match start_file_watching h st with
        | (st1, effs1, Returned) =>
            let '(st2, effs2) := sync_all_files st1 in
            (st2, Log AutoSyncEnabled INFO :: effs1 ++ effs2, Returned)
        | (st1, effs1, e) => (st1, Log AutoSyncEnabled INFO :: effs1, e)
        end
      else (st, [Log AutoSyncEnabled INFO], Returned)
    else
      let '(st1, effs1) := stop_file_watching st in
      (st1, Log AutoSyncDisabled INFO :: effs1, Returned) in
  match e with
  | Returned => let '(st2, e2) := save_config h st1 in (st2, effs, e2)
  | _ => (st1, effs, e)
  end.

(** [select_directory]; [directory] is what the dialog returns, the empty
    string when it is cancelled *)
Definition select_directory (h : host) (st : state) (directory : string)
    : state * list effect * ending :=
  if negb (truthy_str directory) then (st, [], Returned)
  else
    let st0 := set_vars st (set_dir (vars st) directory) in
    match save_config h st0 with
    | (st1, Returned) =>
        let said := [Log (SyncDirectorySetTo directory) INFO] in
        if pico_connected st1 && auto_sync_enabled (vars st1) then
          match restart h st1 with
          | (st2, effs2, Returned) =>
              let '(st3, effs3) := sync_all_files st2 in
              (st3, said ++ effs2 ++ effs3 ++ [Call RefreshLocalFiles],
               Returned)
          | (st2, effs2, e) => (st2, said ++ effs2, e)
          end
        else (st1, said ++ [Call RefreshLocalFiles], Returned)
    | (st1, e) => (st1, [], e)
    end.

(** [save_settings] *)
Definition save_settings (h : host) (st : state)
    : state * list effect * ending :=
  match save_config h st with
  | (st1, Returned) =>
      if pico_connected st1 && auto_sync_enabled (vars st1) then
        let '(st2, effs2, e) := restart h st1 in
        (st2, Show SettingsSaved :: effs2, e)
      else (st1, [Show SettingsSaved], Returned)
  | (st1, e) => (st1, [], e)
  end.

(** [on_pico_connected] *)
Definition on_pico_connected (h : host) (st : state)
    : state * list effect * ending :=
  let before :=
    [Log PicoConnected SUCCESS; UpdateStatus "Connected" "#00ff00";
     Buttons true; Call DetectPicoModel; After 1000 CheckAndFlash] in
  if auto_sync_enabled (vars st) && truthy_str (dir_var (vars st)) then
    match start_file_watching h st with
    | (st1, effs1, Returned) =>
        let '(st2, effs2) := sync_all_files st1 in
        (st2, before ++ effs1 ++ effs2 ++ [Call RefreshFiles], Returned)
    | (st1, effs1, e) => (st1, before ++ effs1, e)
    end
  else (st, before ++ [Call RefreshFiles], Returned).

(** [on_pico_disconnected] *)
Definition on_pico_disconnected (st : state) : state * list effect :=
  let '(st1, effs) := stop_file_watching st in
  (st1,
   [Log PicoDisconnected WARNING; UpdateStatus "Disconnected" "#ff0000";
    ModelLabel EmptyString; Buttons false]
     ++ effs ++ [PicoTreeClear]).

(** [on_closing] *)
Definition on_closing (h : host) (st : state)
    : state * list effect * ending :=
  let '(st1, effs) := stop_file_watching st in
  match save_config h st1 with
  | (st2, Returned) => (st2, effs ++ [RootDestroy], Returned)
  | (st2, e) => (st2, effs, e)
  end.

(** *** What can happen to the application, one event at a time *)

Inductive event :=
  | MonitorSets (connected : bool)  (* [monitor_usb] assigns the flag *)
  | OnPicoConnected                 (* the callbacks it schedules *)
  | OnPicoDisconnected
  | ClickAutoSync                   (* the Auto Sync box *)
  | Browse (directory : string)     (* the Browse button and its dialog *)
  | EditSettings (tab : settings)   (* the widgets of the Settings tab *)
  | SaveSettings
  | SyncNow
  | WatcherReports (filepath : string)
  | ObserverDies (i : nat)          (* an observer's thread ends *)
  | Close.

Definition step (h : host) (st : state) (ev : event)
    : state * list effect * ending :=
  match ev with
  | MonitorSets b => (set_connected st b, [], Returned)
  | OnPicoConnected => on_pico_connected h st
  | OnPicoDisconnected =>
      let '(st1, effs) := on_pico_disconnected st in (st1, effs, Returned)
  | ClickAutoSync =>
      toggle_auto_sync h
        (set_vars st (set_auto_sync (vars st)
                        (negb (auto_sync_enabled (vars st)))))
  | Browse directory => select_directory h st directory
  | EditSettings tab => (set_vars st (set_tab (vars st) tab), [], Returned)
  | SaveSettings => save_settings h st
  | SyncNow =>
      let '(st1, effs) := manual_sync st in (st1, effs, Returned)
  | WatcherReports filepath =>
      let '(st1, effs) := on_file_changed st filepath in
      (st1, effs, Returned)
  | ObserverDies i =>
      (set_observers st (file_observer st) (alter stopped i (observers st)),
       [], Returned)
  | Close => on_closing h st
  end.

(** the state after a history of events, each with the host's answers *)
Fixpoint after (st : state) (history : list (host * event)) : state :=
  match history with
  | [] => st
  | (h, ev) :: rest => after (fst (fst (step h st ev))) rest
  end.

End WithJson.

(** the attributes after [__init__], for the configuration loaded *)
Definition started (v : settings) (c : gmap string jvalue) (f : file)
    : state :=
  {| vars := v; config := c; config_file := f;
     pico_connected := false; file_observer := None; observers := [];
     sync_queue := [] |}.

(** every observer whose thread runs is the one [self.file_observer]
    refers to *)
Definition tidy (st : state) : Prop :=
  forall i o,
    observers st !! i = Some o -> is_alive o = true ->
    file_observer st = Some i.

Definition none_alive (st : state) : Prop :=
  forall i o, observers st !! i = Some o -> is_alive o = false.

(** the observer that runs, if any *)
Definition watching (st : state) : option observer :=
  match file_observer st with
  | Some i =>
      match observers st !! i with
      | Some o => if is_alive o then Some o else None
      | None => None
      end
  | None => None
  end.

(** the observer [start_file_watching] creates *)
Definition new_observer (st : state) : observer :=
  {| watched := dir_var (vars st);
     recursive :=
       Json.truthy (Json.get (config st) "sync_subdirs" (JBool true));
     is_alive := true |}.

Definition is_destroy (e : effect) : bool :=
  match e with RootDestroy => true | _ => false end.

Definition friendly : host :=
  {| path_exists := fun _ => true; observer_starts := true;
     writable := true |}.

(** a board is plugged in, then the settings are saved *)
Definition connect_then_save : list (host * event) :=
  [(friendly, MonitorSets true); (friendly, OnPicoConnected);
   (friendly, SaveSettings)].

Definition at_start : state := started saved_settings ∅ Missing.

End Watch.

(** ** Flashing from the dialog: [download_and_flash] *)

Module Flashing.
Import Py Monitor Firmware.

(** What [download_and_flash] works with, besides the host's answers to
    [wait_for_bootsel]. *)
Record world := {
  urlretrieve : string -> string -> result unit;  (* url, file name *)
  host : nat -> platform;                         (* round by round *)
  copy2 : string -> string -> result unit;        (* file name, drive *)
  remove : string -> result unit
}.

Inductive label :=
  | DownloadingFirmware      (* "Downloading firmware..." *)
  | WaitingForBootsel        (* "Waiting for BOOTSEL mode..." *)
  | FlashingFirmware         (* "Flashing firmware..." *)
  | Idle.

Inductive message :=
  | Downloading (filename : string)   (* f"Downloading {filename}..." *)
  | Downloaded (filename : string)    (* f"Downloaded {filename}" *)
  | FirmwareFlashed                   (* "Firmware flashed successfully!" *)
  | NoBootselDrive                    (* "Could not find BOOTSEL drive" *)
  | FlashError (e : string).          (* f"Flash error: {e}" *)

Inductive dialog :=
  | EnterBootselMode                  (* showinfo, through root.after *)
  | Success                           (* showinfo("Success", ...) *)
  | NotDetected                       (* showerror("Error", "Could not ...") *)
  | Failed (e : string).              (* showerror(f"Failed to flash ...") *)

Inductive action :=
  | Label (l : label)
  | ProgressStart
  | ProgressStop
  | Say (m : message) (lvl : level)
  | Retrieve (url filename : string)
  | Waited (e : effect)               (* what [wait_for_bootsel] did *)
  | Copy (filename drive : string)
  | Remove (filename : string)
  | Show (d : dialog).

(** [url.split('/')[-1]] *)
Definition url_filename (url : string) : string :=
  List.last (Files.split_at "/" url) EmptyString.

(** the [except Exception] clause *)
Definition failed (e : string) : list action :=
  [Say (FlashError e) ERROR; Show (Failed e)].

(** the body of [if bootsel_drive:] *)
Definition flash_onto (w : world) (filename drive : string) : list action :=
  [Label FlashingFirmware; Copy filename drive]
    ++ match copy2 w filename drive with
       | Raise e => failed e
       | Ok _ =>
           [Say FirmwareFlashed SUCCESS; Remove filename]
             ++ match remove w filename with
                | Raise e => failed e
                | Ok _ => [Show Success]
                end
       end.

(** [download_and_flash] *)
Definition download_and_flash (w : world) (url : string) : list action :=
  let filename := url_filename url in
  [Label DownloadingFirmware; ProgressStart;
   Say (Downloading filename) INFO; Retrieve url filename]
    ++ match urlretrieve w url filename with
       | Raise e => failed e
       | Ok _ =>
           [Say (Downloaded filename) SUCCESS; Show EnterBootselMode;
            Label WaitingForBootsel]
             ++ map Waited (fst (wait_for_bootsel (host w)))
             ++ match snd (wait_for_bootsel (host w)) with
                | Raise e => failed e
                | Ok (Some drive) => flash_onto w filename drive
                | Ok None =>
                    [Say NoBootselDrive ERROR; Show NotDetected]
                end
       end
    ++ [ProgressStop; Label Idle].

(** the files [os.remove] is called on *)
Definition removed (actions : list action) : list string :=
  omap (fun a => match a with Remove name => Some name | _ => None end)
       actions.

Definition slept (a : action) : bool :=
  match a with Waited e => is_sleep e | _ => false end.

(** the seconds slept while waiting *)
Definition seconds_waited (actions : list action) : nat :=
  length (filter (fun a => slept a = true) actions).

(** the image was retrieved, the drive appeared and the copy onto it went
    through *)
Definition flashes (w : world) (url : string) : bool :=
  match urlretrieve w url (url_filename url) with
  | Ok _ =>
      match snd (wait_for_bootsel (host w)) with
      | Ok (Some drive) =>
          match copy2 w (url_filename url) drive with
          | Ok _ => true
          | Raise _ => false
          end
      | _ => false
      end
  | Raise _ => false
  end.

End Flashing.

(** * Proofs *)

(** ** Comparison of rationals and a list fact *)

Lemma Qltb_lt (x y : Q) : Qltb x y = true <-> (x < y)%Q.
Proof.
  unfold Qltb. rewrite negb_true_iff. split.
  - intros H. apply Qnot_le_lt. intros Hle.
    apply Qle_bool_iff in Hle. congruence.
  - intros H. destruct (Qle_bool y x) eqn:E; [|reflexivity].
    apply Qle_bool_iff in E. exfalso. apply (Qlt_not_le _ _ H E).
Qed.

Lemma Qltb_ge (x y : Q) : Qltb x y = false <-> (y <= x)%Q.
Proof.
  unfold Qltb. rewrite negb_false_iff. apply Qle_bool_iff.
Qed.

Lemma last_cons {A} (l : list A) (a d : A) :
  List.last (a :: l) d = List.last l a.
Proof.
  revert a d. induction l as [|x l IH]; intros a d; [done|].
  change (List.last (a :: x :: l) d) with (List.last (x :: l) d).
  by rewrite !IH.
Qed.

(** ** The file change detector *)

Module WatcherProofs.
Import Watcher.

Section WatcherFacts.

Variable path : string.
Hypothesis Hpy : Py.endswith path ".py" = true.

Lemma on_modified_accept (self : PicoFileWatcher) (t : Q) :
  accepts self path t ->
  on_modified self t (file_event path)
  = ({| last_modified := <[path := t]> (last_modified self) |},
     [Callback path]).
Proof using Hpy.
  unfold accepts, on_modified. cbn [is_directory src_path file_event].
  rewrite Hpy. destruct (last_modified self !! path) as [last|]; [|done].
  intros Hle. apply Qltb_ge in Hle. by rewrite Hle.
Qed.

Lemma on_modified_discard (self : PicoFileWatcher) (t last : Q) :
  last_modified self !! path = Some last ->
  (t - last < 1)%Q ->
  on_modified self t (file_event path) = (self, []).
Proof using Hpy.
  intros Hl Hlt. unfold on_modified. cbn [is_directory src_path file_event].
  rewrite Hpy, Hl. apply Qltb_lt in Hlt. by rewrite Hlt.
Qed.

Lemma run_app (self : PicoFileWatcher) (ds1 ds2 : list dispatched) :
  run self (ds1 ++ ds2)
  = let '(self1, e1) := run self ds1 in
    let '(self2, e2) := run self1 ds2 in
    (self2, e1 ++ e2).
Proof.
  revert self. induction ds1 as [|d ds1 IH]; intros self; cbn [run app].
  - by destruct (run self ds2).
  - destruct (dispatch self d) as [self1 e1]. rewrite IH.
    destruct (run self1 ds1) as [self2 e2].
    destruct (run self2 ds2) as [self3 e3]. by rewrite app_assoc.
Qed.

Lemma run_followers (self : PicoFileWatcher) (t0 : Q) (ts : list Q) :
  last_modified self !! path = Some t0 ->
  Forall (fun t => (t - t0 < 1)%Q) ts ->
  run self (map (Modified (file_event path)) ts) = (self, []).
Proof using Hpy.
  intros Hl. induction 1 as [|t ts Ht _ IH]; [done|].
  cbn [map run dispatch]. rewrite (on_modified_discard self t t0 Hl Ht).
  by rewrite IH.
Qed.

Lemma run_burst (self : PicoFileWatcher) (b : Q * list Q) :
  accepts self path (fst b) ->
  within_window b ->
  run self (burst_events path b)
  = ({| last_modified := <[path := fst b]> (last_modified self) |},
     [Callback path]).
Proof using Hpy.
  intros Hacc Hwin. unfold burst_events. cbn [run dispatch].
  rewrite (on_modified_accept self _ Hacc).
  rewrite (run_followers _ (fst b)); [done| |done].
  cbn. apply lookup_insert_eq.
Qed.

Lemma run_bursts (self : PicoFileWatcher) (b : Q * list Q)
    (bs : list (Q * list Q)) :
  accepts self path (fst b) ->
  Forall within_window (b :: bs) ->
  spaced (fst b) bs ->
  run self (flat_map (burst_events path) (b :: bs))
  = ({| last_modified :=
          <[path := fst (List.last bs b)]> (last_modified self) |},
     map (fun _ => Callback path) (b :: bs)).
Proof using Hpy.
  revert self b. induction bs as [|b' bs IH]; intros self b Hacc Hwin Hsp.
  - cbn [flat_map]. rewrite app_nil_r. apply run_burst; [done|].
    by inversion Hwin.
  - inversion Hwin as [|? ? Hb Hrest]; subst. destruct Hsp as [Hgap Hsp].
    change (flat_map (burst_events path) (b :: b' :: bs))
      with (burst_events path b ++ flat_map (burst_events path) (b' :: bs)).
    rewrite run_app, (run_burst self b Hacc Hb).
    rewrite (IH _ b'); [| |done|done].
    + cbn [last_modified]. rewrite insert_insert_eq, last_cons. done.
    + unfold accepts. cbn [last_modified]. rewrite lookup_insert_eq.
      apply Qlt_le_weak, Hgap.
Qed.

End WatcherFacts.

Lemma on_modified_cases (w : PicoFileWatcher) (now : Q) (event : fs_event) :
  on_modified w now event = (w, [])
  \/ on_modified w now event
     = ({| last_modified := <[src_path event := now]> (last_modified w) |},
        [Callback (src_path event)]).
Proof.
  unfold on_modified.
  destruct (is_directory event); [by left|].
  destruct (Py.endswith (src_path event) ".py"); [|by left].
  destruct (last_modified w !! src_path event) as [last|]; [|by right].
  destruct (Qltb _ _); [by left|by right].
Qed.

Lemma changes_callbacks {A} (path : string) (l : list A) :
  changes (map (fun _ => Callback path) l) = map (fun _ => path) l.
Proof.
  induction l as [|x l IH]; [reflexivity|]. cbn. f_equal. exact IH.
Qed.

(** C2: on one path ending in [.py], a burst of modified events that all
    arrive less than a second after its first, accepted event gives exactly
    one change event, an event more than a second after the previously
    accepted one gives a change event of its own, and the ledger entry of
    the path is written exactly when an event is accepted: after the run
    it holds the time of the last accepted event, and a single
    [on_modified] either changes nothing and emits nothing, or records the
    time and emits the change. *)
Theorem debounce_one_change_per_burst (self : PicoFileWatcher)
    (path : string) (b : Q * list Q) (bs : list (Q * list Q)) :
  Py.endswith path ".py" = true ->
  accepts self path (fst b) ->
  Forall within_window (b :: bs) ->
  spaced (fst b) bs ->
  changes (snd (run self (flat_map (burst_events path) (b :: bs))))
  = map (fun _ => path) (b :: bs)
  /\ last_modified (fst (run self (flat_map (burst_events path) (b :: bs))))
     = <[path := fst (List.last bs b)]> (last_modified self)
  /\ (forall (w : PicoFileWatcher) (now : Q) (event : fs_event),
        on_modified w now event = (w, [])
        \/ on_modified w now event
           = ({| last_modified :=
                   <[src_path event := now]> (last_modified w) |},
              [Callback (src_path event)])).
Proof.
  intros Hpy Hacc Hwin Hsp.
  rewrite (run_bursts path Hpy self b bs Hacc Hwin Hsp). cbn [fst snd].
  split; [apply changes_callbacks|]. split; [reflexivity|].
  exact on_modified_cases.
Qed.

Lemma debounce_one_change_per_burst_witness :
  changes
    (snd (run {| last_modified := ∅ |}
            (flat_map (burst_events "/home/u/proj/main.py")
               [(10, [51 # 5; 109 # 10]); (23 # 2, []); (13, [27 # 2])]%Q)))
  = ["/home/u/proj/main.py"; "/home/u/proj/main.py"; "/home/u/proj/main.py"].
Proof.
  apply (debounce_one_change_per_burst {| last_modified := ∅ |}
           "/home/u/proj/main.py" (10, [51 # 5; 109 # 10])%Q
           [(23 # 2, []); (13, [27 # 2])]%Q).
  - reflexivity.
  - exact I.
  - repeat constructor.
  - repeat split.
Defined.




End WatcherProofs.

(** ** The device presence monitor *)

Module MonitorProofs.
Import Py Monitor.

Section MonitorFacts.

(** After the bootloader half the flag says whether a drive was found. *)
Lemma check_bootsel_flag (st : state) (bootsel_drive : option string) :
  bootsel_detected (fst (check_bootsel st bootsel_drive))
  = truthy bootsel_drive.
Proof.
  unfold check_bootsel.
  destruct (truthy bootsel_drive), (bootsel_detected st) eqn:E; cbn; congruence.
Qed.

Lemma check_bootsel_serial (st : state) (bootsel_drive : option string) :
  pico_connected (fst (check_bootsel st bootsel_drive)) = pico_connected st
  /\ current_port (fst (check_bootsel st bootsel_drive)) = current_port st.
Proof.
  unfold check_bootsel.
  by destruct (truthy bootsel_drive), (bootsel_detected st).
Qed.

Lemma check_serial_flag (st : state) (pico_port : option string) :
  pico_connected (fst (check_serial st pico_port)) = truthy pico_port.
Proof.
  unfold check_serial.
  destruct (truthy pico_port), (pico_connected st) eqn:E; cbn; congruence.
Qed.

Lemma check_serial_bootsel (st : state) (pico_port : option string) :
  bootsel_detected (fst (check_serial st pico_port)) = bootsel_detected st.
Proof.
  unfold check_serial.
  by destruct (truthy pico_port), (pico_connected st).
Qed.

Lemma tick_events_eq (st : state) (p : platform) :
  tick_events st p
  = match find_bootsel_drive p with
    | Raise _ => []
    | Ok bootsel_drive =>
        filter (fun t => has_callback t = true)
               (bootsel_transitions st bootsel_drive)
          ++ match comports p with
             | Raise _ => []
             | Ok ports => serial_transitions st (find_pico_port ports)
             end
    end.
Proof.
  unfold tick_events, poll, poll_body, bootsel_transitions,
    serial_transitions.
  destruct (find_bootsel_drive p) as [bd|e]; [|done].
  pose proof (check_bootsel_serial st bd) as [Hc Hp].
  unfold check_bootsel in *.
  destruct (truthy bd) eqn:Hbd, (bootsel_detected st) eqn:Hdet;
    cbn [andb negb fst] in *;
    (destruct (comports p) as [ports|e]; [|done]);
    unfold check_serial; cbn [pico_connected current_port];
    destruct (truthy (find_pico_port ports)), (pico_connected st); done.
Qed.

Lemma poll_state (st : state) (p : platform) :
  fst (poll st p)
  = match find_bootsel_drive p with
    | Raise _ => st
    | Ok bootsel_drive =>
        let st1 := fst (check_bootsel st bootsel_drive) in
        match comports p with
        | Raise _ => st1
        | Ok ports => fst (check_serial st1 (find_pico_port ports))
        end
    end.
Proof.
  unfold poll, poll_body.
  destruct (find_bootsel_drive p) as [bd|e]; [|done].
  destruct (check_bootsel st bd) as [st1 e1]. cbn [fst].
  destruct (comports p) as [ports|e]; [|reflexivity].
  by destruct (check_serial st1 (find_pico_port ports)).
Qed.

Lemma found_drive_eq (p : platform) (bootsel_drive : option string) :
  find_bootsel_drive p = Ok bootsel_drive ->
  found_drive p = default EmptyString bootsel_drive.
Proof. unfold found_drive. intros ->. by destruct bootsel_drive. Qed.

Lemma bootsel_edge_eq (st : state) (bootsel_drive : option string) :
  bootsel_edge st (fst (check_bootsel st bootsel_drive))
    (default EmptyString bootsel_drive)
  = bootsel_transitions st bootsel_drive.
Proof.
  unfold bootsel_edge, bootsel_transitions, check_bootsel.
  by destruct (truthy bootsel_drive), (bootsel_detected st) eqn:E;
    cbn [andb negb fst bootsel_detected]; rewrite ?E.
Qed.

Lemma serial_edge_eq (st : state) (pico_port : option string) :
  serial_edge st (fst (check_serial st pico_port))
  = serial_transitions st pico_port.
Proof.
  unfold serial_edge, serial_transitions, check_serial.
  by destruct (truthy pico_port), (pico_connected st) eqn:E;
    cbn [andb negb fst pico_connected current_port]; rewrite ?E.
Qed.

Lemma serial_edge_refl (st st1 : state) :
  pico_connected st1 = pico_connected st -> serial_edge st st1 = [].
Proof.
  unfold serial_edge. intros ->. by destruct (pico_connected st).
Qed.

Lemma bootsel_edge_refl (st st1 : state) (drive : string) :
  bootsel_detected st1 = bootsel_detected st ->
  bootsel_edge st st1 drive = [].
Proof.
  unfold bootsel_edge. intros ->. by destruct (bootsel_detected st).
Qed.

Lemma bootsel_edge_serial (st st1 st2 : state) (drive : string) :
  bootsel_detected st2 = bootsel_detected st1 ->
  bootsel_edge st st2 drive = bootsel_edge st st1 drive.
Proof. unfold bootsel_edge. by intros ->. Qed.

Lemma serial_edge_bootsel (st st1 st2 : state) :
  pico_connected st1 = pico_connected st ->
  serial_edge st st2 = serial_edge st1 st2.
Proof. unfold serial_edge. by intros ->. Qed.

Lemma tick_transitions_eq (st : state) (p : platform) :
  tick_transitions st p
  = match find_bootsel_drive p with
    | Raise _ => []
    | Ok bootsel_drive =>
        bootsel_transitions st bootsel_drive
          ++ match comports p with
             | Raise _ => []
             | Ok ports => serial_transitions st (find_pico_port ports)
             end
    end.
Proof.
  unfold tick_transitions. rewrite poll_state.
  destruct (find_bootsel_drive p) as [bd|e] eqn:Hf.
  - rewrite (found_drive_eq p bd Hf). cbv zeta.
    destruct (check_bootsel_serial st bd) as [Hc Hp].
    destruct (comports p) as [ports|e].
    + rewrite (bootsel_edge_serial st (fst (check_bootsel st bd)))
        by apply check_serial_bootsel.
      rewrite bootsel_edge_eq.
      rewrite (serial_edge_bootsel st (fst (check_bootsel st bd))) by done.
      rewrite serial_edge_eq.
      unfold serial_transitions. by rewrite Hc.
    + by rewrite bootsel_edge_eq, serial_edge_refl, app_nil_r.
  - by rewrite bootsel_edge_refl, serial_edge_refl.
Qed.

Lemma tick_transitions_repeat (st : state) (p p' : platform) :
  same_report p p' ->
  tick_transitions (fst (poll st p)) p' = [].
Proof.
  intros [Hd Hp]. rewrite tick_transitions_eq, poll_state, Hd.
  assert (Hports : match comports p' with
                   | Ok ports => Ok (find_pico_port ports)
                   | Raise e => Raise e
                   end = found_port p) by exact Hp.
  unfold found_port in Hports.
  destruct (find_bootsel_drive p) as [bd|e]; [|done].
  assert (Hb : forall st', bootsel_detected st' = truthy bd ->
                           bootsel_transitions st' bd = []).
  { intros st' H. unfold bootsel_transitions. rewrite H.
    by destruct (truthy bd). }
  cbv zeta.
  destruct (comports p) as [ports|e], (comports p') as [ports'|e'];
    try discriminate.
  - injection Hports as Hports.
    rewrite Hb by (by rewrite check_serial_bootsel, check_bootsel_flag).
    unfold serial_transitions. rewrite check_serial_flag, Hports.
    by destruct (truthy (find_pico_port ports)).
  - rewrite Hb by apply check_bootsel_flag. done.
Qed.

Lemma tick_transitions_shape (st : state) (p : platform) :
  exists bl se, tick_transitions st p = bl ++ se
    /\ (bl = [] \/ (exists path, bl = [BootloaderDetected path])
                 \/ bl = [BootloaderLost])
    /\ (se = [] \/ (exists port, se = [Connected port])
                 \/ se = [Disconnected]).
Proof.
  rewrite tick_transitions_eq.
  destruct (find_bootsel_drive p) as [bd|e].
  - exists (bootsel_transitions st bd).
    eexists. split; [reflexivity|]. split.
    + unfold bootsel_transitions.
      destruct (_ && _); [eauto|]. destruct (_ && _); eauto.
    + destruct (comports p) as [ports|e]; [|by left].
      unfold serial_transitions.
      destruct (_ && _); [eauto|]. destruct (_ && _); eauto.
  - exists [], []. eauto.
Qed.

Lemma tick_events_callbacks (st : state) (p : platform) :
  tick_events st p
  = filter (fun t => has_callback t = true) (tick_transitions st p).
Proof.
  rewrite tick_events_eq, tick_transitions_eq.
  destruct (find_bootsel_drive p) as [bd|e]; [|done].
  rewrite filter_app. f_equal.
  destruct (comports p) as [ports|e]; [|done].
  unfold serial_transitions.
  destruct (_ && _); [done|]. by destruct (_ && _).
Qed.

Lemma poll_sleeps_once (st : state) (p : platform) :
  filter (fun e => is_sleep e = true) (snd (poll st p)) = [Sleep 1].
Proof.
  unfold poll, poll_body.
  destruct (find_bootsel_drive p) as [bd|e]; [|done].
  unfold check_bootsel.
  destruct (truthy bd), (bootsel_detected st); cbn [andb negb];
    (destruct (comports p) as [ports|e]; [|done]);
    unfold check_serial; cbn [pico_connected];
    destruct (truthy (find_pico_port ports)), (pico_connected st); done.
Qed.

Lemma monitor_usb_sleeps (st : state) (script : list platform) :
  length (filter (fun e => is_sleep e = true) (snd (monitor_usb st script)))
  = length script.
Proof.
  revert st. induction script as [|p rest IH]; intros st; [done|].
  cbn [monitor_usb]. pose proof (poll_sleeps_once st p) as Hs.
  destruct (poll st p) as [st1 e1]. specialize (IH st1).
  destruct (monitor_usb st1 rest) as [st2 e2]. cbn [snd] in *.
  rewrite filter_app, length_app, Hs, IH. done.
Qed.

End MonitorFacts.

(** C1, as amended: for every recorded state and every poll, the poll takes
    at most one bootloader transition (BootloaderDetected or BootloaderLost)
    followed by at most one serial transition (Connected or Disconnected),
    so up to two in one poll; a poll that reports the same as the poll
    before it takes no transition; every transition but BootloaderLost
    schedules its
    callback, BootloaderLost only clears the monitor's flag.  On the
    sequence no device, bootloader sentinel present, no device, serial port
    present, the transitions taken are BootloaderDetected, BootloaderLost,
    Connected in that order, and the events fired are BootloaderDetected
    and Connected. *)
Theorem monitor_one_transition_per_signal :
  (forall st p, exists bl se, tick_transitions st p = bl ++ se
      /\ (bl = [] \/ (exists path, bl = [BootloaderDetected path])
                   \/ bl = [BootloaderLost])
      /\ (se = [] \/ (exists port, se = [Connected port])
                   \/ se = [Disconnected]))
  /\ (forall st p p',
        same_report p p' -> tick_transitions (fst (poll st p)) p' = [])
  /\ (forall st p,
        tick_events st p
        = filter (fun t => has_callback t = true) (tick_transitions st p))
  /\ taken initial [no_device; bootloader_present; no_device; serial_present]
     = [BootloaderDetected "/media/RPI-RP2"; BootloaderLost;
        Connected "/dev/ttyACM0"]
  /\ emitted initial [no_device; bootloader_present; no_device; serial_present]
     = [BootloaderDetected "/media/RPI-RP2"; Connected "/dev/ttyACM0"].
Proof.
  split; [exact tick_transitions_shape|].
  split; [exact tick_transitions_repeat|].
  split; [exact tick_events_callbacks|].
  split; vm_compute; reflexivity.
Qed.

Lemma monitor_one_transition_per_signal_witness :
  tick_transitions (fst (poll initial serial_present)) serial_present_again
  = [].
Proof.
  destruct monitor_one_transition_per_signal as (_ & H & _).
  apply (H initial serial_present serial_present_again).
  split; reflexivity.
Defined.

(** Against C1 as stated: from the initial state, a poll that finds both a
    bootloader drive and a serial port fires two events; and the events
    fired on the scripted sequence do not include BootloaderLost. *)
Lemma monitor_two_events_in_one_poll :
  tick_events initial both_present
  = [BootloaderDetected "/media/RPI-RP2"; Connected "/dev/ttyACM0"]
  /\ emitted initial [no_device; bootloader_present; no_device; serial_present]
     <> [BootloaderDetected "/media/RPI-RP2"; BootloaderLost;
         Connected "/dev/ttyACM0"].
Proof.
  split; [vm_compute; reflexivity|].
  vm_compute. discriminate.
Qed.

(** C8, as amended: when the enumeration of a poll raises, the recorded
    serial connection and port are left as they were and the poll takes no
    serial transition; when it is the bootloader enumeration that raises,
    the whole state is left as it was and no transition is taken; the
    error is logged; and the loop goes on: run over that poll and any
    further polls, it sleeps once per poll. *)
Theorem failed_poll_keeps_state (st : state) (p : platform) (e : string) :
  enumeration_raises p e ->
  pico_connected (fst (poll st p)) = pico_connected st
  /\ current_port (fst (poll st p)) = current_port st
  /\ Forall (fun t => is_serial_event t = false) (tick_transitions st p)
  /\ match find_bootsel_drive p with
     | Raise _ => fst (poll st p) = st /\ tick_transitions st p = []
     | Ok _ => True
     end
  /\ Log (UsbMonitoringError e) ERROR ∈ snd (poll st p)
  /\ (forall rest,
        length (filter (fun x => is_sleep x = true)
                       (snd (monitor_usb st (p :: rest))))
        = S (length rest)).
Proof.
  unfold enumeration_raises. intros He.
  rewrite tick_transitions_eq, poll_state.
  assert (Hlog : Log (UsbMonitoringError e) ERROR ∈ snd (poll st p)).
  { unfold poll, poll_body.
    destruct (find_bootsel_drive p) as [bd|e']; [|subst e'; cbn; set_solver].
    rewrite He. destruct (check_bootsel st bd) as [st1 e1]. cbn. set_solver. }
  destruct (find_bootsel_drive p) as [bd|e'].
  - rewrite He. cbv zeta.
    destruct (check_bootsel_serial st bd) as [H1 H2].
    split_and!; [done|done| |done|done|intros rest; apply monitor_usb_sleeps].
    rewrite app_nil_r. unfold bootsel_transitions.
    destruct (_ && _); [by repeat constructor|].
    destruct (_ && _); by repeat constructor.
  - split_and!; [done|done|constructor|done|done|done|
                 intros rest; apply monitor_usb_sleeps].
Qed.

Lemma failed_poll_keeps_state_witness :
  pico_connected (fst (poll connected_state comports_fails)) = true
  /\ Log (UsbMonitoringError "could not open port") ERROR
       ∈ snd (poll connected_state comports_fails).
Proof.
  destruct (failed_poll_keeps_state connected_state comports_fails
              "could not open port") as (H1 & _ & _ & _ & H5 & _).
  - reflexivity.
  - split; [exact H1|exact H5].
Defined.

(** Against C8 as stated: with the device recorded as connected, a poll
    whose port enumeration raises takes no transition and fires no event;
    the device stays recorded as connected. *)
Lemma failed_poll_no_loss_transition :
  tick_transitions connected_state comports_fails = []
  /\ tick_events connected_state comports_fails = []
  /\ fst (poll connected_state comports_fails) = connected_state.
Proof. vm_compute. done. Qed.

End MonitorProofs.

(** ** The sync dispatcher *)

Module DispatcherProofs.
Import Py Subprocess Dispatcher.

Section DispatcherFacts.

Lemma copies_app (e1 e2 : list effect) :
  copies (e1 ++ e2) = copies e1 ++ copies e2.
Proof. apply omap_app. Qed.

Lemma logs_app (e1 e2 : list effect) :
  logs (e1 ++ e2) = logs e1 ++ logs e2.
Proof. apply omap_app. Qed.

Lemma copies_display (files : list string) :
  copies (map (fun f => After 0 (QueueInsert (basename f))) files) = [].
Proof. induction files as [|f files IH]; [done|exact IH]. Qed.

Lemma logs_display (files : list string) :
  logs (map (fun f => After 0 (QueueInsert (basename f))) files) = [].
Proof. induction files as [|f files IH]; [done|exact IH]. Qed.

Variable w : world.

Lemma run_copy (filepath : string) (rc : Z) :
  exit_status w filepath rc ->
  run true None (spawn w (copy_of filepath))
  = if (rc =? 0)%Z
    then Returns {| returncode := rc;
                    stdout := match spawn w (copy_of filepath) with
                              | Exits _ _ out _ => out | _ => EmptyString end;
                    stderr := match spawn w (copy_of filepath) with
                              | Exits _ _ _ err => err | _ => EmptyString end |}
    else Raises (CalledProcessError rc).
Proof.
  intros (s & out & err & ->). unfold run. cbn [andb].
  by destruct (rc =? 0)%Z.
Qed.


End DispatcherFacts.

Section DirectoryFacts.

Variable path_glob :
  string -> list entry -> string -> result (list (string * bool)).
Variable config : gmap string jvalue.
Variable w : world.
Variable directory : string.


End DirectoryFacts.

(** C3, on the code: with the file types set to text files ([txt_config])
    and subdirectories on, a batch over a directory holding a.txt, b.py and
    c.txt, the device connected throughout, copies b.py and nothing else,
    whatever [Path.glob] does: the recursive branch selects the names that
    end in .py and does not use the configured pattern.  With
    subdirectories off, the same settings select the files by the
    configured pattern. *)
Theorem recursive_batch_ignores_pattern
    (path_glob : string -> list entry -> string -> result (list (string * bool))) :
  Json.get txt_config "file_types" (JStr "*.py") = JStr "*.txt"
  /\ batch_files path_glob txt_config txt_project "/home/u/proj"
     = Ok ["/home/u/proj/b.py"]
  /\ copies (fst (sync_directory path_glob txt_config txt_project "/home/u/proj"))
     = [copy_of "/home/u/proj/b.py"]
  /\ batch_files path_glob (<["sync_subdirs" := JBool false]> txt_config)
       txt_project "/home/u/proj"
     = match path_glob "/home/u/proj" (tree txt_project "/home/u/proj")
               "*.txt" with
       | Ok found => Ok (map fst (filter (fun f => snd f = true) found))
       | Raise e => Raise e
       end.
Proof. split_and!; vm_compute; reflexivity. Qed.

(** C4, as amended: an item taken off the queue while the device is
    recorded as not connected produces no effect at all, so no gateway
    invocation and no log entry either, and the loop goes on with the rest
    of the queue: the item is neither retried nor put back. *)
Theorem dropped_item_leaves_no_trace
    (path_glob : string -> list entry -> string -> result (list (string * bool)))
    (config : gmap string jvalue) (w : world) (item : SyncWorkItem) :
  connected_at w 0 = false ->
  process_item path_glob config w item = ([], Returned)
  /\ forall ws rest,
       process_sync_queue path_glob config (w :: ws) (item :: rest)
       = process_sync_queue path_glob config ws rest.
Proof.
  intros Hoff.
  assert (Hitem : process_item path_glob config w item = ([], Returned)).
  { unfold process_item, sync_single_file, sync_directory.
    destruct item; by rewrite Hoff. }
  split; [exact Hitem|]. intros ws rest. cbn [process_sync_queue].
  rewrite Hitem. by destruct (process_sync_queue _ _ ws rest) as [[q effs] e].
Qed.

Lemma dropped_item_leaves_no_trace_witness :
  process_item (fun _ _ _ => Ok []) ∅ unplugged (SingleFile "/home/u/proj/main.py")
  = ([], Returned).
Proof.
  apply (dropped_item_leaves_no_trace (fun _ _ _ => Ok []) ∅ unplugged
           (SingleFile "/home/u/proj/main.py")).
  reflexivity.
Defined.

(** Against C4 as stated: a single file and a full directory item taken
    while the device is recorded as not connected leave no log entry. *)
Lemma dropped_item_not_logged :
  logs (fst (process_item (fun _ _ _ => Ok []) ∅ unplugged
               (SingleFile "/home/u/proj/main.py"))) = []
  /\ logs (fst (process_item (fun _ _ _ => Ok []) ∅ unplugged
                  (FullDirectory "/home/u/proj"))) = [].
Proof. split; vm_compute; reflexivity. Qed.







Section TimeoutFacts.

Lemma run_with_timeout (check : bool) (t : Q) (p : process) :
  run check (Some t) p <> Blocks.
Proof.
  destruct p as [s rc out err| |e]; cbn [run]; [|done|done].
  destruct (Qltb t s); [done|]. by destruct (check && _).
Qed.

Lemma detect_pico_model_returns (w : world) (pico_model : option string) :
  timeouts (fst (fst (fst (detect_pico_model w pico_model)))) = [Some 5%Q]
  /\ snd (fst (fst (detect_pico_model w pico_model))) = Returned.
Proof.
  unfold detect_pico_model.
  pose proof (run_with_timeout false 5 (spawn w detect_argv)) as Hrun.
  destruct (run false (Some 5%Q) (spawn w detect_argv)) as [r|e|];
    [|done|done].
  destruct (contains "rp2040" _); [done|].
  by destruct (contains "rp2350" _).
Qed.

Lemma check_micropython_returns (w : world) (mpremote_cmd : string)
    (current_port : option string) :
  timeouts (fst (fst (check_micropython w mpremote_cmd current_port)))
  = [Some 5%Q]
  /\ snd (fst (check_micropython w mpremote_cmd current_port)) = Returned.
Proof.
  unfold check_micropython.
  set (argv := [mpremote_cmd; _; _; _]).
  pose proof (run_with_timeout false 5 (spawn w argv)) as Hrun.
  destruct (run false (Some 5%Q) (spawn w argv)) as [r|e|]; [|done|done].
  by destruct (truthy_str (stderr r)).
Qed.

Lemma sync_single_file_no_timeout (w : world) (filepath : string) :
  Forall (fun t => t = None) (timeouts (fst (sync_single_file w filepath))).
Proof.
  unfold sync_single_file. destruct (negb _); [constructor|].
  destruct (run _ _ _) as [r|[]|]; cbn; repeat constructor.
Qed.

Lemma sync_each_no_timeout (w : world) (total i : nat)
    (files : list string) :
  Forall (fun t => t = None) (timeouts (fst (sync_each w total i files))).
Proof.
  revert i. induction files as [|f files IH]; intros i; cbn [sync_each].
  - constructor.
  - destruct (negb _); [constructor|].
    destruct (run _ _ _) as [r|[]|]; try (cbn; repeat constructor; fail);
      specialize (IH (S i));
      destruct (sync_each w total (S i) files) as [effs e];
      cbn; constructor; done.
Qed.

End TimeoutFacts.

(** C7, as amended: the identification calls of [detect_pico_model] and
    [check_micropython] run with a timeout of 5 seconds and always return;
    the copy invocations of [sync_single_file] and of the batch loop run
    without a timeout; and a copy process that never exits blocks the
    consumer loop, which leaves the rest of the queue unprocessed. *)
Theorem only_identification_calls_time_out :
  (forall w pico_model,
     timeouts (fst (fst (fst (detect_pico_model w pico_model)))) = [Some 5%Q]
     /\ snd (fst (fst (detect_pico_model w pico_model))) = Returned)
  /\ (forall w mpremote_cmd current_port,
        timeouts (fst (fst (check_micropython w mpremote_cmd current_port)))
        = [Some 5%Q]
        /\ snd (fst (check_micropython w mpremote_cmd current_port)) = Returned)
  /\ (forall w filepath,
        Forall (fun t => t = None) (timeouts (fst (sync_single_file w filepath))))
  /\ (forall w total i files,
        Forall (fun t => t = None) (timeouts (fst (sync_each w total i files))))
  /\ (forall path_glob config w ws filepath rest,
        connected_at w 0 = true ->
        spawn w (copy_of filepath) = Hangs ->
        fst (fst (process_sync_queue path_glob config (w :: ws)
                    (SingleFile filepath :: rest))) = rest
        /\ snd (process_sync_queue path_glob config (w :: ws)
                  (SingleFile filepath :: rest)) = Blocked).
Proof.
  split; [exact detect_pico_model_returns|].
  split; [exact check_micropython_returns|].
  split; [exact sync_single_file_no_timeout|].
  split; [exact sync_each_no_timeout|].
  intros path_glob config w ws filepath rest Hon Hhang.
  cbn [process_sync_queue]. unfold process_item, sync_single_file.
  rewrite Hon. cbn [negb]. fold (copy_of filepath). rewrite Hhang. cbn [run].
  done.
Qed.

Lemma only_identification_calls_time_out_witness :
  snd (process_sync_queue (fun _ _ _ => Ok []) ∅ [hung; healthy]
         [SingleFile "/home/u/proj/main.py";
          SingleFile "/home/u/proj/util.py"])
  = Blocked.
Proof.
  destruct only_identification_calls_time_out as (_ & _ & _ & _ & H).
  apply (H (fun _ _ _ => Ok []) ∅ hung [healthy] "/home/u/proj/main.py"
           [SingleFile "/home/u/proj/util.py"]); reflexivity.
Defined.

(** Against C7 as stated: the copy of a single file is invoked without a
    timeout, and when its process never exits the consumer loop is
    blocked with the next item still on the queue. *)
Lemma hung_copy_blocks_consumer :
  process_sync_queue (fun _ _ _ => Ok []) ∅ [hung; healthy]
    [SingleFile "/home/u/proj/main.py"; SingleFile "/home/u/proj/util.py"]
  = ([SingleFile "/home/u/proj/util.py"],
     [After 0 (LabelSyncing "main.py"); After 0 ProgressStart;
      Run (copy_of "/home/u/proj/main.py") true None],
     Blocked).
Proof. vm_compute. reflexivity. Qed.

End DispatcherProofs.

(** ** The configuration file *)

Module ConfigProofs.
Import Py Config.

Section ConfigFacts.

Lemma startup_values_updated (config : gmap string jvalue) (s : settings) :
  startup_values (JDict (updated config s)) = Ok (values_of s).
Proof.
  unfold startup_values, values_of, updated, Json.get.
  by repeat (rewrite ?lookup_insert_eq; rewrite ?lookup_insert_ne by done).
Qed.

End ConfigFacts.

(** C9: when [save_config] succeeds and the JSON text it wrote reads back
    as the dict it was written from, the next start of the program on the
    file gets, for each of the seven settings (sync directory, auto sync,
    file types, subdirectories, auto flash, notifications, log level),
    exactly the value that was saved. *)
Theorem save_then_load_roundtrip
    (json_dump : jvalue -> string) (json_load : string -> result jvalue)
    (config : gmap string jvalue) (s : settings) (writable : bool)
    (config_file : file) :
  snd (save_config json_dump config s writable config_file) = Ok tt ->
  json_load (json_dump (JDict (updated config s)))
  = Ok (JDict (updated config s)) ->
  startup json_load
    (snd (fst (save_config json_dump config s writable config_file)))
  = Ok (values_of s).
Proof.
  unfold save_config. destruct writable; [|discriminate].
  intros _ Hjson. cbn [fst snd]. unfold startup, load_config.
  rewrite Hjson. apply startup_values_updated.
Qed.

Lemma save_then_load_roundtrip_witness :
  startup JsonText.loads
    (snd (fst (save_config JsonText.dumps ∅ saved_settings true Missing)))
  = Ok (values_of saved_settings).
Proof.
  apply (save_then_load_roundtrip JsonText.dumps JsonText.loads ∅
           saved_settings true Missing).
  - reflexivity.
  - vm_compute. reflexivity.
Defined.

End ConfigProofs.


(** ** More on the device presence monitor *)

Module MonitorMoreProofs.
Import Py Monitor MonitorMore.

Section DriveSearch.

Variable p : platform.

Lemma find_bootsel_windows_first (ls : list string) :
  is_windows p = true ->
  find_bootsel_windows p ls
  = List.find (has_sentinel p) (windows_candidates p ls).
Proof.
  intros Hw. unfold windows_candidates, has_sentinel, sentinel. rewrite Hw.
  induction ls as [|letter rest IH]; [done|].
  cbn [find_bootsel_windows map]. fold (drive_root letter).
  rewrite filter_cons.
  destruct (path_exists p (drive_root letter)) eqn:E; cbn [andb].
  - rewrite decide_True by done. cbn [List.find].
    by destruct (path_exists p (drive_root letter +:+ "INFO_UF2.TXT")).
  - rewrite decide_False by done. exact IH.
Qed.

Lemma find_in_mount_first (mount : string) (folders : list string) :
  is_windows p = false ->
  find_in_mount p mount folders
  = List.find (has_sentinel p) (map (join mount) folders).
Proof.
  intros Hw. unfold has_sentinel, sentinel. rewrite Hw.
  induction folders as [|folder rest IH]; [done|].
  cbn [find_in_mount map List.find].
  by destruct (path_exists p (join (join mount folder) "INFO_UF2.TXT")).
Qed.

Lemma find_app {A} (f : A -> bool) (l1 l2 : list A) :
  List.find f (l1 ++ l2)
  = match List.find f l1 with
    | Some x => Some x
    | None => List.find f l2
    end.
Proof.
  induction l1 as [|x l1 IH]; [done|]. cbn [app List.find].
  by destruct (f x).
Qed.

Lemma find_bootsel_posix_first (mounts : list string) :
  is_windows p = false ->
  find_bootsel_posix p mounts
  = match List.find (has_sentinel p) (posix_candidates p mounts) with
    | Some drive => Ok (Some drive)
    | None =>
        match listing_error p mounts with
        | Some e => Raise e
        | None => Ok None
        end
    end.
Proof.
  intros Hw. induction mounts as [|mount rest IH]; [done|].
  cbn [find_bootsel_posix posix_candidates listing_error].
  destruct (path_exists p mount); [|exact IH].
  destruct (listdir p mount) as [folders|e]; [|done].
  rewrite find_app, find_in_mount_first by done.
  by destruct (List.find (has_sentinel p) (map (join mount) folders)).
Qed.

End DriveSearch.

(** X1: [find_bootsel_drive] returns the first place it looks at that
    carries the sentinel file; when none does, it raises the first error of
    listing a mount directory, and returns [None] when there was no such
    error.  So a drive it returns does carry the sentinel, and an error
    after a match is never seen. *)
Theorem find_bootsel_drive_first_match (p : platform) :
  find_bootsel_drive p
  = match List.find (has_sentinel p) (candidates p) with
    | Some drive => Ok (Some drive)
    | None =>
        match first_listing_error p with
        | Some e => Raise e
        | None => Ok None
        end
    end
  /\ (forall drive,
        find_bootsel_drive p = Ok (Some drive) ->
        drive ∈ candidates p /\ path_exists p (sentinel p drive) = true).
Proof.
  assert (Heq : find_bootsel_drive p
    = match List.find (has_sentinel p) (candidates p) with
      | Some drive => Ok (Some drive)
      | None =>
          match first_listing_error p with
          | Some e => Raise e
          | None => Ok None
          end
      end).
  { unfold find_bootsel_drive, candidates, first_listing_error.
    destruct (is_windows p) eqn:Hw.
    - rewrite find_bootsel_windows_first by done.
      by destruct (List.find _ _).
    - by apply find_bootsel_posix_first. }
  split; [exact Heq|]. intros drive Hd. rewrite Heq in Hd.
  destruct (List.find (has_sentinel p) (candidates p)) as [d|] eqn:Hf.
  - injection Hd as ->. apply find_some in Hf as [Hin Hs].
    split; [by apply list_elem_of_In|exact Hs].
  - by destruct (first_listing_error p).
Qed.

Lemma find_bootsel_drive_first_match_witness :
  "/media/RPI-RP2" ∈ candidates bootloader_present
  /\ path_exists bootloader_present
       (sentinel bootloader_present "/media/RPI-RP2") = true.
Proof.
  apply (proj2 (find_bootsel_drive_first_match bootloader_present)).
  reflexivity.
Defined.

Section Substrings.

Lemma prefix_app_contains (a b s : string) :
  String.prefix (a +:+ b) s = true -> contains b s = true.
Proof.
  revert s. induction a as [|c a IH]; intros s H.
  - change (String.prefix b s = true) in H.
    destruct s; cbn [contains]; by rewrite H.
  - change (String c a +:+ b) with (String c (a +:+ b)) in H.
    destruct s as [|c' s]; [done|].
    cbn [String.prefix] in H. destruct (ascii_dec c c') as [->|]; [|done].
    cbn [contains]. rewrite (IH s H). apply orb_true_r.
Qed.

Lemma contains_app (a b s : string) :
  contains (a +:+ b) s = true -> contains b s = true.
Proof.
  induction s as [|c s IH]; cbn [contains]; intros H.
  - apply orb_true_iff in H as [H|H]; [|done].
    by apply prefix_app_contains in H.
  - apply orb_true_iff in H as [H|H].
    + by apply prefix_app_contains in H.
    + rewrite (IH H). apply orb_true_r.
Qed.

End Substrings.

Lemma is_pico_simpler (port : port_info) :
  is_pico port
  = contains "2e8a" (lower (hwid port))
    || contains "pico" (lower (description port)).
Proof.
  unfold is_pico.
  destruct (contains "2e8a" _); [done|]. cbn [orb].
  destruct (contains "raspberry pi pico" _) eqn:E; [|done].
  symmetry. apply (contains_app "raspberry pi " "pico"), E.
Qed.

(** X2: the port [monitor_usb] picks is the device of the first port whose
    hardware id contains 2e8a or whose description contains pico, both
    compared in lower case; the test for the full product name selects
    nothing that the test for pico does not, and [None] is returned
    exactly when no port passes. *)
Theorem find_pico_port_first (ports : list port_info) :
  find_pico_port ports
  = device <$> List.find
      (fun port => contains "2e8a" (lower (hwid port))
                   || contains "pico" (lower (description port))) ports.
Proof.
  induction ports as [|port rest IH]; [done|].
  cbn [find_pico_port List.find]. rewrite is_pico_simpler.
  by destruct (_ || _).
Qed.

Section History.

Lemma monitor_usb_state (st : state) (p : platform) (rest : list platform) :
  fst (monitor_usb st (p :: rest)) = fst (monitor_usb (fst (poll st p)) rest).
Proof.
  cbn [monitor_usb]. destruct (poll st p) as [st1 e1]. cbn [fst].
  by destruct (monitor_usb st1 rest).
Qed.

Lemma replay_app (f : bool * bool) (l1 l2 : list transition) :
  replay f (l1 ++ l2)
  = match replay f l1 with
    | Some f' => replay f' l2
    | None => None
    end.
Proof.
  revert f. induction l1 as [|t l1 IH]; intros f; [done|].
  cbn [app replay]. by destruct (apply_transition f t).
Qed.

Lemma replay_bootsel (st : state) (bootsel_drive : option string) :
  replay (flags st) (bootsel_transitions st bootsel_drive)
  = Some (flags (fst (check_bootsel st bootsel_drive))).
Proof.
  unfold bootsel_transitions, check_bootsel, flags.
  destruct st as [detected connected port]. cbn.
  by destruct (truthy bootsel_drive), detected, connected.
Qed.

Lemma replay_serial (st : state) (pico_port : option string) :
  replay (flags st) (serial_transitions st pico_port)
  = Some (flags (fst (check_serial st pico_port))).
Proof.
  unfold serial_transitions, check_serial, flags.
  destruct st as [detected connected port]. cbn.
  by destruct (truthy pico_port), detected, connected.
Qed.

Lemma replay_tick (st : state) (p : platform) :
  replay (flags st) (tick_transitions st p) = Some (flags (fst (poll st p))).
Proof.
  rewrite MonitorProofs.tick_transitions_eq, MonitorProofs.poll_state.
  destruct (find_bootsel_drive p) as [bd|e]; [|done].
  rewrite replay_app, replay_bootsel. cbv zeta.
  destruct (comports p) as [ports|e]; [|done].
  pose proof (replay_serial (fst (check_bootsel st bd)) (find_pico_port ports))
    as H.
  unfold serial_transitions in *.
  by destruct (MonitorProofs.check_bootsel_serial st bd) as [<- _].
Qed.

Lemma check_serial_port_recorded (st : state) (pico_port : option string) :
  port_recorded st -> port_recorded (fst (check_serial st pico_port)).
Proof.
  unfold port_recorded, check_serial. intros H.
  destruct (truthy pico_port) eqn:Hp, (pico_connected st) eqn:Hc;
    cbn [fst pico_connected current_port andb negb]; rewrite ?Hp, ?Hc;
    done.
Qed.

Lemma poll_port_recorded (st : state) (p : platform) :
  port_recorded st -> port_recorded (fst (poll st p)).
Proof.
  intros H. rewrite MonitorProofs.poll_state.
  destruct (find_bootsel_drive p) as [bd|e]; [|done].
  assert (H1 : port_recorded (fst (check_bootsel st bd))).
  { unfold port_recorded in *.
    by destruct (MonitorProofs.check_bootsel_serial st bd) as [-> ->]. }
  cbv zeta. destruct (comports p) as [ports|e]; [|done].
  by apply check_serial_port_recorded.
Qed.

End History.

(** X3: along any run of the monitor, the transitions taken account for
    the recorded flags: each one starts from the opposite value of its
    flag, so detections and losses of the bootloader alternate, as do
    connections and disconnections, and replaying them from the flags at
    the start gives the flags at the end.  The events fired are these
    transitions without the bootloader losses. *)
Theorem transitions_replay_flags (st : state) (script : list platform) :
  replay (flags st) (taken st script)
  = Some (flags (fst (monitor_usb st script)))
  /\ emitted st script
     = filter (fun t => has_callback t = true) (taken st script).
Proof.
  revert st. induction script as [|p rest IH]; intros st; [done|].
  destruct (IH (fst (poll st p))) as [IH1 IH2].
  rewrite monitor_usb_state. cbn [taken emitted]. split.
  - by rewrite replay_app, replay_tick.
  - by rewrite filter_app, IH2, MonitorProofs.tick_events_callbacks.
Qed.

(** X4: [self.current_port] holds a port exactly while
    [self.pico_connected] is set: if this is so when the monitor starts, it
    is so after every poll. *)
Theorem port_recorded_while_connected (st : state) (script : list platform) :
  port_recorded st -> port_recorded (fst (monitor_usb st script)).
Proof.
  revert st. induction script as [|p rest IH]; intros st H; [done|].
  rewrite monitor_usb_state. by apply IH, poll_port_recorded.
Qed.

Lemma port_recorded_while_connected_witness :
  port_recorded
    (fst (monitor_usb initial
            [no_device; serial_present; comports_fails; no_device])).
Proof.
  apply (port_recorded_while_connected initial).
  reflexivity.
Defined.

(** X5: while the device is recorded as connected, a poll that finds a
    Pico port, under whatever device name, changes neither the recorded
    port nor the connection flag and takes no serial transition: a board
    that comes back under another name between two polls keeps its old
    port on record. *)
Theorem connected_port_is_not_refreshed (st : state) (p : platform)
    (bootsel_drive : option string) (ports : list port_info) :
  pico_connected st = true ->
  find_bootsel_drive p = Ok bootsel_drive ->
  comports p = Ok ports ->
  truthy (find_pico_port ports) = true ->
  current_port (fst (poll st p)) = current_port st
  /\ pico_connected (fst (poll st p)) = true
  /\ tick_transitions st p = bootsel_transitions st bootsel_drive.
Proof.
  intros Hc Hd Hp Ht.
  rewrite MonitorProofs.tick_transitions_eq, MonitorProofs.poll_state, Hd, Hp.
  cbv zeta.
  destruct (MonitorProofs.check_bootsel_serial st bootsel_drive) as [H1 H2].
  unfold check_serial, serial_transitions. rewrite H1, Hc, Ht.
  cbn [andb negb fst]. rewrite app_nil_r. by rewrite H1, H2.
Qed.

Lemma connected_port_is_not_refreshed_witness :
  find_pico_port [{| device := "/dev/ttyACM1";
                     description := "Board in FS mode - Board CDC";
                     hwid := "USB VID:PID=2E8A:0005" |}]
  = Some "/dev/ttyACM1"
  /\ current_port (fst (poll connected_state moved_port))
     = Some "/dev/ttyACM0".
Proof.
  split; [reflexivity|].
  apply (connected_port_is_not_refreshed connected_state moved_port None
           [{| device := "/dev/ttyACM1";
               description := "Board in FS mode - Board CDC";
               hwid := "USB VID:PID=2E8A:0005" |}]); reflexivity.
Defined.

End MonitorMoreProofs.

(** ** More on the sync dispatcher *)

Module DispatcherMoreProofs.
Import Py Subprocess Dispatcher DispatcherMore.

Section Queue.

Variable path_glob :
  string -> list entry -> string -> result (list (string * bool)).
Variable config : gmap string jvalue.

Lemma sync_directory_never_raises (w : world) (directory : string) (e : exn) :
  snd (sync_directory path_glob config w directory) <> Raised e.
Proof.
  unfold sync_directory. destruct (negb _); [done|].
  destruct (batch_files _ _ _ _); [|done].
  by destruct (sync_each _ _ _ _) as [effs []].
Qed.

Lemma process_item_never_raises (w : world) (item : SyncWorkItem) (e : exn) :
  snd (process_item path_glob config w item) <> Raised e.
Proof.
  unfold process_item.
  destruct (match item with
            | SingleFile filepath => sync_single_file w filepath
            | FullDirectory directory =>
                sync_directory path_glob config w directory
            end) as [effs []]; done.
Qed.

Lemma process_sync_queue_never_raises (ws : list world)
    (sync_queue : list SyncWorkItem) (e : exn) :
  snd (process_sync_queue path_glob config ws sync_queue) <> Raised e.
Proof.
  revert sync_queue. induction ws as [|w ws IH]; intros q; [done|].
  cbn [process_sync_queue]. destruct q as [|item rest]; [apply IH|].
  pose proof (process_item_never_raises w item) as Hi.
  destruct (process_item path_glob config w item) as [effs ending_].
  specialize (IH rest).
  destruct (process_sync_queue path_glob config ws rest) as [[q effs'] e'].
  cbn [snd] in *. by destruct ending_.
Qed.

Lemma process_sync_queue_in_turn (ws : list world)
    (sync_queue : list SyncWorkItem) :
  Forall (fun wi => blocks (snd (process_item path_glob config wi.1 wi.2))
                    = false) (zip ws sync_queue) ->
  process_sync_queue path_glob config ws sync_queue
  = (drop (length ws) sync_queue,
     effects_in_turn path_glob config ws sync_queue, Returned).
Proof.
  unfold effects_in_turn.
  revert sync_queue. induction ws as [|w ws IH]; intros q H.
  - by rewrite drop_0.
  - cbn [process_sync_queue]. destruct q as [|item rest].
    + rewrite (IH []) by (rewrite zip_with_nil_r; constructor).
      by rewrite drop_nil, !zip_with_nil_r.
    + cbn [zip zip_with] in H. inversion H as [|? ? Hb Hrest]; subst.
      cbn [fst snd] in Hb. rewrite (IH rest Hrest).
      cbn [zip_with concat drop length].
      destruct (process_item path_glob config w item) as [effs ending_].
      cbn [snd fst] in *. by destruct ending_.
Qed.

End Queue.

(** X6: the consumer loop never ends on an exception, whatever the items
    and whatever the external processes do; and as long as no copy blocks,
    it takes the items one per turn in queue order: the effects are those
    of the items in that order, and what is left of the queue are the
    items beyond the turns taken. *)
Theorem consumer_loop_in_queue_order
    (path_glob : string -> list entry -> string -> result (list (string * bool)))
    (config : gmap string jvalue) (ws : list world)
    (sync_queue : list SyncWorkItem) :
  (forall e, snd (process_sync_queue path_glob config ws sync_queue)
             <> Raised e)
  /\ (Forall (fun wi => blocks (snd (process_item path_glob config wi.1 wi.2))
                        = false) (zip ws sync_queue) ->
      process_sync_queue path_glob config ws sync_queue
      = (drop (length ws) sync_queue,
         effects_in_turn path_glob config ws sync_queue, Returned)).
Proof.
  split.
  - intros e. apply process_sync_queue_never_raises.
  - apply process_sync_queue_in_turn.
Qed.

Lemma consumer_loop_in_queue_order_witness :
  process_sync_queue (fun _ _ _ => Ok []) ∅ [healthy; unplugged]
    [SingleFile "/home/u/proj/main.py"; FullDirectory "/home/u/proj";
     SingleFile "/home/u/proj/util.py"]
  = ([SingleFile "/home/u/proj/util.py"],
     effects_in_turn (fun _ _ _ => Ok []) ∅ [healthy; unplugged]
       [SingleFile "/home/u/proj/main.py"; FullDirectory "/home/u/proj";
        SingleFile "/home/u/proj/util.py"],
     Returned).
Proof.
  apply (proj2 (consumer_loop_in_queue_order (fun _ _ _ => Ok []) ∅
                  [healthy; unplugged]
                  [SingleFile "/home/u/proj/main.py";
                   FullDirectory "/home/u/proj";
                   SingleFile "/home/u/proj/util.py"])).
  repeat constructor.
Defined.

Section CannotStart.

Variable w : world.

Lemma sync_each_cannot_start (total : nat) (copied rest : list string)
    (failing : string) (codes : list Z) (i : nat) (e : string) :
  (forall j, (i < j <= S (i + length copied))%nat -> connected_at w j = true) ->
  Forall2 (exit_status w) copied codes ->
  spawn w (copy_of failing) = FailsToStart e ->
  snd (sync_each w total i (copied ++ failing :: rest)) = Raised (OtherError e)
  /\ copies (fst (sync_each w total i (copied ++ failing :: rest)))
     = map copy_of (copied ++ [failing])
  /\ logs (fst (sync_each w total i (copied ++ failing :: rest)))
     = zip_with outcome_log copied codes.
Proof.
  intros Hconn Hex Hfail. revert i Hconn.
  induction Hex as [|f rc fs rcs Hf _ IH]; intros i Hconn.
  - cbn [app length sync_each] in *.
    rewrite (Hconn (S i)) by lia. cbn [negb].
    fold (copy_of failing). by rewrite Hfail.
  - cbn [app sync_each length] in *.
    rewrite (Hconn (S i)) by lia. cbn [negb].
    fold (copy_of f). rewrite (DispatcherProofs.run_copy w f rc Hf).
    destruct (IH (S i)) as (He & Hc & Hl).
    { intros j Hj. apply Hconn. lia. }
    destruct (rc =? 0)%Z eqn:Erc;
      destruct (sync_each w total (S i) (fs ++ failing :: rest)) as [effs en];
      cbn [fst snd] in *; subst en;
      (split; [done|]); unfold copies, logs, outcome_log in *;
      split; cbn; rewrite ?Erc; by f_equal.
Qed.

End CannotStart.

(** X7: a copy process that cannot be started is not a per-file failure.
    In a batch, the device recorded as connected, it ends the batch: the
    files before it are copied and logged one by one, the copy itself is
    attempted, no further file is attempted, and the batch is closed by a
    directory sync error entry instead of the completion entry.  For a
    single file, the loop logs a sync error.  Neither call lets the
    exception out. *)
Theorem copy_that_cannot_start
    (path_glob : string -> list entry -> string -> result (list (string * bool)))
    (config : gmap string jvalue) (w : world) (directory : string)
    (copied rest : list string) (failing : string) (codes : list Z)
    (e : string) :
  batch_files path_glob config w directory
  = Ok (copied ++ failing :: rest) ->
  (forall j, (j <= S (length copied))%nat -> connected_at w j = true) ->
  Forall2 (exit_status w) copied codes ->
  spawn w (copy_of failing) = FailsToStart e ->
  copies (fst (sync_directory path_glob config w directory))
  = map copy_of (copied ++ [failing])
  /\ logs (fst (sync_directory path_glob config w directory))
     = zip_with outcome_log copied codes
         ++ [(DirectorySyncError (OtherError e), ERROR)]
  /\ snd (sync_directory path_glob config w directory) = Returned
  /\ logs (fst (process_item path_glob config w (SingleFile failing)))
     = [(SyncError (OtherError e), ERROR)]
  /\ snd (process_item path_glob config w (SingleFile failing)) = Returned.
Proof.
  intros Hf Hon Hex Hfail.
  destruct (sync_each_cannot_start w (length (copied ++ failing :: rest))
              copied rest failing codes 0 e)
    as (He & Hc & Hl); [intros j Hj; apply Hon; lia|done|done|].
  split_and!.
  - unfold sync_directory. rewrite Hon by lia. rewrite Hf. cbn [negb].
    destruct (sync_each w _ 0 _) as [effs en]. cbn [fst snd] in *. subst en.
    cbn [fst]. rewrite !DispatcherProofs.copies_app. cbn [app].
    change (After 0 QueueClear :: ?l) with ([After 0 QueueClear] ++ l).
    rewrite !DispatcherProofs.copies_app, DispatcherProofs.copies_display, Hc.
    cbn. by rewrite ?app_nil_r.
  - unfold sync_directory. rewrite Hon by lia. rewrite Hf. cbn [negb].
    destruct (sync_each w _ 0 _) as [effs en]. cbn [fst snd] in *. subst en.
    cbn [fst]. rewrite !DispatcherProofs.logs_app. cbn [app].
    change (After 0 QueueClear :: ?l) with ([After 0 QueueClear] ++ l).
    rewrite !DispatcherProofs.logs_app, DispatcherProofs.logs_display, Hl.
    cbn. by rewrite ?app_nil_r.
  - unfold sync_directory. rewrite Hon by lia. rewrite Hf. cbn [negb].
    destruct (sync_each w _ 0 _) as [effs en]. cbn [snd] in He. by subst en.
  - unfold process_item, sync_single_file. rewrite Hon by lia. cbn [negb].
    fold (copy_of failing). by rewrite Hfail.
  - unfold process_item, sync_single_file. rewrite Hon by lia. cbn [negb].
    fold (copy_of failing). by rewrite Hfail.
Qed.

Lemma copy_that_cannot_start_witness :
  copies (fst (sync_directory (fun _ _ _ => Ok []) ∅ second_cannot_start
                 "/home/u/proj"))
  = [copy_of "/home/u/proj/boot.py"; copy_of "/home/u/proj/main.py"]
  /\ logs (fst (sync_directory (fun _ _ _ => Ok []) ∅ second_cannot_start
                  "/home/u/proj"))
     = [(Synced "boot.py", SUCCESS);
        (DirectorySyncError
           (OtherError "[Errno 2] No such file or directory: 'mpremote'"),
         ERROR)].
Proof.
  destruct (copy_that_cannot_start (fun _ _ _ => Ok []) ∅ second_cannot_start
              "/home/u/proj" ["/home/u/proj/boot.py"]
              ["/home/u/proj/util.py"] "/home/u/proj/main.py" [0%Z]
              "[Errno 2] No such file or directory: 'mpremote'")
    as (H1 & H2 & _).
  - vm_compute. reflexivity.
  - reflexivity.
  - repeat constructor. by exists (1 # 2)%Q, EmptyString, EmptyString.
  - reflexivity.
  - split; [exact H1|exact H2].
Defined.

(** X8: whenever [sync_directory] or [sync_single_file] got past its
    connection check and no copy blocked for ever, the indicators are
    reset at the end: the last effects stop the progress bar and set the
    label back to Idle (and, for a directory, clear the queue display),
    whether the copies succeeded, failed or could not be started.
    [sync_directory] never raises. *)
Theorem indicators_are_reset
    (path_glob : string -> list entry -> string -> result (list (string * bool)))
    (config : gmap string jvalue) (w : world) (path : string) :
  connected_at w 0 = true ->
  (blocks (snd (sync_directory path_glob config w path)) = false ->
   snd (sync_directory path_glob config w path) = Returned
   /\ exists body,
        fst (sync_directory path_glob config w path)
        = body ++ directory_finally)
  /\ (blocks (snd (sync_single_file w path)) = false ->
      exists body,
        fst (sync_single_file w path) = body ++ single_file_finally).
Proof.
  intros Hon. split.
  - unfold sync_directory. rewrite Hon. cbn [negb].
    destruct (batch_files _ _ _ _) as [files|e].
    + destruct (sync_each _ _ _ _) as [effs []]; cbn [fst snd blocks];
        intros Hb; [| |done]; (split; [done|]);
        rewrite ?app_assoc; eauto.
    + intros _. split; [done|]. rewrite app_assoc. eauto.
  - unfold sync_single_file. rewrite Hon. cbn [negb].
    destruct (run _ _ _) as [r|[]|]; cbn [fst snd blocks]; intros Hb;
      try done; rewrite ?app_assoc; eauto.
Qed.

Lemma indicators_are_reset_witness :
  exists body,
    fst (sync_directory (fun _ _ _ => Ok []) ∅ second_cannot_start
           "/home/u/proj")
    = body ++ directory_finally.
Proof.
  destruct (indicators_are_reset (fun _ _ _ => Ok []) ∅ second_cannot_start
              "/home/u/proj") as [H _].
  - reflexivity.
  - apply H. vm_compute. reflexivity.
Defined.

Section Names.

Lemma string_app_nil_r (s : string) : s +:+ EmptyString = s.
Proof.
  induction s as [|c s IH]; [done|].
  change (String c s +:+ EmptyString) with (String c (s +:+ EmptyString)).
  by rewrite IH.
Qed.

Lemma string_app_assoc (a b c : string) : (a +:+ b) +:+ c = a +:+ (b +:+ c).
Proof.
  induction a as [|x a IH]; [done|].
  change ((String x a +:+ b) +:+ c) with (String x ((a +:+ b) +:+ c)).
  by rewrite IH.
Qed.

Lemma basename_plain (acc name : string) :
  no_slash name = true -> basename_from acc name = acc +:+ name.
Proof.
  revert acc. induction name as [|c name IH]; intros acc H.
  - cbn [basename_from]. by rewrite string_app_nil_r.
  - cbn [no_slash] in H. apply andb_true_iff in H as [Hc Hn].
    cbn [basename_from]. apply negb_true_iff in Hc. rewrite Hc.
    by rewrite (IH _ Hn), string_app_assoc.
Qed.

Lemma basename_after_slash (acc a b : string) :
  basename_from acc (a +:+ String "/" b) = basename b.
Proof.
  revert acc. induction a as [|c a IH]; intros acc.
  - done.
  - change (String c a +:+ String "/" b) with (String c (a +:+ String "/" b)).
    cbn [basename_from]. by destruct (Ascii.eqb c "/").
Qed.

Lemma plain_name_inv (name : string) :
  plain_name name = true ->
  no_slash name = true /\ String.prefix "/" name = false.
Proof.
  unfold plain_name. intros H. apply andb_true_iff in H as [Ht Hn].
  split; [done|]. destruct name as [|c name]; [done|].
  cbn [no_slash] in Hn. apply andb_true_iff in Hn as [Hc _].
  apply negb_true_iff in Hc. cbn [String.prefix].
  destruct (ascii_dec "/" c) as [<-|]; [done|by destruct name].
Qed.

Lemma rev_app_last (s acc : string) (c : ascii) (r : string) :
  String.rev_app s acc = String c r ->
  s <> EmptyString ->
  exists s', s = s' +:+ String c EmptyString.
Proof.
  revert acc. induction s as [|a s IH]; intros acc H Hne; [done|].
  cbn [String.rev_app] in H. destruct s as [|a' s].
  - cbn in H. injection H as -> _. by exists EmptyString.
  - destruct (IH _ H) as [s' Hs']; [done|].
    exists (String a s'). rewrite Hs'. done.
Qed.

Lemma endswith_slash (a : string) :
  endswith a "/" = true -> exists a', a = a' +:+ String "/" EmptyString.
Proof.
  unfold endswith, String.rev. intros H.
  destruct (String.rev_app a EmptyString) as [|c r] eqn:E;
    cbn [String.prefix String.rev_app] in H.
  - done.
  - destruct (ascii_dec "/" c) as [<-|]; [|done].
    apply (rev_app_last a EmptyString "/" r E).
    intros ->. done.
Qed.

Lemma basename_join (root name : string) :
  plain_name name = true -> basename (join root name) = name.
Proof.
  intros H. apply plain_name_inv in H as [Hn Hp].
  unfold join, basename. rewrite Hp.
  destruct (truthy_str root && negb (endswith root "/")) eqn:E.
  - change ("/" +:+ name) with (String "/" name).
    rewrite basename_after_slash. by apply (basename_plain EmptyString).
  - destruct root as [|c root]; [by apply (basename_plain EmptyString)|].
    cbn [truthy_str andb] in E. apply negb_false_iff in E.
    apply endswith_slash in E as [a' ->].
    rewrite string_app_assoc.
    change (String "/" EmptyString +:+ name) with (String "/" name).
    rewrite basename_after_slash. by apply (basename_plain EmptyString).
Qed.

End Names.

(** X9: the name a file gets on the device is its own name without the
    directory it lies in: for a plain name under any directory, the copy
    is [mpremote connect auto cp <path> :<name>].  So two files of the same
    name in different directories of a batch are copied to the same place
    on the device. *)
Theorem copy_drops_the_directory (root root' name : string) :
  plain_name name = true ->
  copy_of (join root name)
  = ["mpremote"; "connect"; "auto"; "cp"; join root name; ":" +:+ name]
  /\ List.last (copy_of (join root name)) EmptyString
     = List.last (copy_of (join root' name)) EmptyString.
Proof.
  intros H. unfold copy_of, cp_argv. rewrite !basename_join by done. done.
Qed.

Lemma copy_drops_the_directory_witness :
  List.last (copy_of (join "/home/u/proj" "main.py")) EmptyString
  = List.last (copy_of (join "/home/u/proj/lib/drivers" "main.py"))
      EmptyString.
Proof.
  apply (copy_drops_the_directory "/home/u/proj" "/home/u/proj/lib/drivers"
           "main.py").
  reflexivity.
Defined.

Section Walk.


Lemma walk_py_files_eq (directory : string) (es : list entry) :
  walk_py_files directory es
  = picked directory (filenames es)
      ++ flat_map (fun e => flat_map (fun '(root, _, names) => picked root names)
                                     (walk_entry directory e)) es.
Proof.
  unfold walk_py_files, os_walk. cbn [flat_map]. f_equal.
  induction es as [|e es IH]; [done|].
  cbn [flat_map]. by rewrite flat_map_app, IH.
Qed.







End Walk.




Section Models.

Lemma detect_pico_model_model (w : world) (pico_model : option string) :
  snd (fst (detect_pico_model w pico_model))
  = match identified w with
    | Some chip => Some chip
    | None => pico_model
    end.
Proof.
  unfold detect_pico_model, identified.
  destruct (spawn w detect_argv) as [seconds rc out err| |e]; cbn [run];
    [|done|done].
  destruct (Qltb 5 seconds); [done|]. cbn [andb stdout].
  destruct (contains "rp2040" (lower out)); [done|].
  by destruct (contains "rp2350" (lower out)).
Qed.

End Models.

(** X15: [self.pico_model] is only ever overwritten with a chip that was
    just identified: after any number of connections it holds the chip of
    the last board that answered with rp2040 or rp2350 (rp2040 being looked
    for first), however many unidentified boards came after it, and its
    initial value if no board ever did. *)
Theorem pico_model_is_last_identified (pico_model : option string)
    (ws : list world) :
  recorded_model pico_model ws
  = match last (omap identified ws) with
    | Some chip => Some chip
    | None => pico_model
    end.
Proof.
  unfold recorded_model. revert pico_model.
  induction ws as [|w ws IH]; intros pico_model; [done|].
  cbn [foldl]. rewrite IH, detect_pico_model_model.
  change (omap identified (w :: ws))
    with (match identified w with
          | Some chip => chip :: omap identified ws
          | None => omap identified ws
          end).
  destruct (identified w) as [chip|]; [|done].
  destruct (omap identified ws) as [|chip' chips]; [done|].
  rewrite last_cons_cons.
  destruct (proj2 (last_is_Some (chip' :: chips))) as [x Hx]; [done|].
  by rewrite Hx.
Qed.

End DispatcherMoreProofs.

(** ** Board identification and firmware *)

Module FirmwareProofs.
Import Py Monitor MonitorMore Firmware.

(** X11: the firmware flashed onto a drive in bootloader mode is the Pico 2
    image exactly when the drive's information file can be read and
    contains RP2350; in every other case, an unreadable file and a file
    naming no known chip included, it is the Pico image. *)
Theorem bootsel_firmware_by_info_file (p : platform)
    (read_text : string -> result string) (drive : string) :
  bootsel_firmware (detect_model_from_bootsel p read_text drive)
  = if match read_text (sentinel p drive) with
       | Ok content => contains "RP2350" content
       | Raise _ => false
       end
    then (url_pico2, "RPI_PICO2-latest.uf2")
    else (url_pico, "RPI_PICO-latest.uf2").
Proof.
  unfold detect_model_from_bootsel.
  destruct (read_text (sentinel p drive)) as [content|e]; [|done].
  destruct (contains "RP2350" content); [done|].
  by destruct (contains "RP2040" content).
Qed.

Section Waiting.

Variable host : nat -> platform.

Lemma sleeps_found (path : string) :
  sleeps [Log (FoundBootselDrive path) INFO] = 0.
Proof. reflexivity. Qed.

Lemma sleeps_cons (seconds : Q) (effs : list effect) :
  sleeps (Sleep seconds :: effs) = S (sleeps effs).
Proof. reflexivity. Qed.

Lemma wait_rounds_spec (rounds k : nat) :
  sleeps (fst (wait_rounds host k rounds)) <= rounds
  /\ match snd (wait_rounds host k rounds) with
     | Ok None =>
         sleeps (fst (wait_rounds host k rounds)) = rounds
         /\ forall j, j < rounds -> look_for_bootsel (host (k + j)) = Ok None
     | Ok (Some path) =>
         exists n,
           n < rounds
           /\ sleeps (fst (wait_rounds host k rounds)) = n
           /\ look_for_bootsel (host (k + n)) = Ok (Some path)
           /\ (forall j, j < n -> look_for_bootsel (host (k + j)) = Ok None)
           /\ List.last (fst (wait_rounds host k rounds)) (Sleep 0)
              = Log (FoundBootselDrive path) INFO
     | Raise e =>
         exists n,
           n < rounds
           /\ look_for_bootsel (host (k + n)) = Raise e
           /\ (forall j, j < n -> look_for_bootsel (host (k + j)) = Ok None)
     end.
Proof.
  revert k. induction rounds as [|rounds IH]; intros k.
  - cbn [wait_rounds fst snd]. split; [unfold sleeps; cbn; lia|].
    split; [done|]. intros j Hj. lia.
  - cbn [wait_rounds].
    destruct (look_for_bootsel (host k)) as [[path|]|e] eqn:Hk.
    + cbn [fst snd]. rewrite sleeps_found. split; [lia|].
      exists 0. rewrite Nat.add_0_r.
      split_and!; [lia|done|done|intros j Hj; lia|done].
    + destruct (IH (S k)) as [Hle Hres].
      destruct (wait_rounds host (S k) rounds) as [effs r].
      cbn [fst snd] in *.
      rewrite sleeps_cons. split; [lia|].
      destruct r as [[path|]|e].
      * destruct Hres as (n & Hn & Hsl & Hlook & Hbefore & Hlast).
        exists (S n). split_and!; [lia|lia| | |].
        -- by replace (k + S n) with (S k + n) by lia.
        -- intros [|j] Hj; [by rewrite Nat.add_0_r|].
           replace (k + S j) with (S k + j) by lia. apply Hbefore. lia.
        -- destruct effs as [|x effs]; [done|exact Hlast].
      * destruct Hres as [Hsl Hall]. split; [lia|].
        intros [|j] Hj; [by rewrite Nat.add_0_r|].
        replace (k + S j) with (S k + j) by lia. apply Hall. lia.
      * destruct Hres as (n & Hn & Hlook & Hbefore).
        exists (S n). split_and!; [lia| |].
        -- by replace (k + S n) with (S k + n) by lia.
        -- intros [|j] Hj; [by rewrite Nat.add_0_r|].
           replace (k + S j) with (S k + j) by lia. apply Hbefore. lia.
    + cbn [fst snd]. split; [unfold sleeps; cbn; lia|].
      exists 0. rewrite Nat.add_0_r.
      split_and!; [lia|done|intros j Hj; lia].
Qed.

End Waiting.

(** X12: [wait_for_bootsel] looks at most 60 times, a second apart.  It
    returns [None] only after 60 rounds that all found nothing, having
    slept 60 seconds; when it returns a drive, that drive was found in
    round n < 60 after n seconds of sleep and n rounds that found nothing,
    and the last thing it did was log the drive; an error of listing a
    mount directory is raised in the round in which it occurs. *)
Theorem wait_for_bootsel_gives_up_after_60 (host : nat -> platform) :
  sleeps (fst (wait_for_bootsel host)) <= 60
  /\ match snd (wait_for_bootsel host) with
     | Ok None =>
         sleeps (fst (wait_for_bootsel host)) = 60
         /\ forall j, j < 60 -> look_for_bootsel (host j) = Ok None
     | Ok (Some path) =>
         exists n,
           n < 60
           /\ sleeps (fst (wait_for_bootsel host)) = n
           /\ look_for_bootsel (host n) = Ok (Some path)
           /\ (forall j, j < n -> look_for_bootsel (host j) = Ok None)
           /\ List.last (fst (wait_for_bootsel host)) (Sleep 0)
              = Log (FoundBootselDrive path) INFO
     | Raise e =>
         exists n,
           n < 60
           /\ look_for_bootsel (host n) = Raise e
           /\ (forall j, j < n -> look_for_bootsel (host j) = Ok None)
     end.
Proof. exact (wait_rounds_spec host 60 0). Qed.

Section Agreement.

Variable p : platform.

Lemma drive_with_sentinel_windows (ls : list string) :
  is_windows p = true ->
  Forall (fun l => endswith (drive_root l) backslash = true) ls ->
  drive_with_sentinel p ls = find_bootsel_windows p ls.
Proof.
  intros Hw. induction 1 as [|l ls Hl _ IH]; [done|].
  cbn [drive_with_sentinel find_bootsel_windows]. fold (drive_root l).
  unfold host_join. rewrite Hw, Hl. cbn [orb]. by rewrite IH.
Qed.

Lemma folder_with_sentinel_posix (mount : string) (folders : list string) :
  is_windows p = false ->
  folder_with_sentinel p mount folders = find_in_mount p mount folders.
Proof.
  intros Hw. induction folders as [|folder rest IH]; [done|].
  cbn [folder_with_sentinel find_in_mount]. unfold host_join.
  by rewrite Hw, IH.
Qed.

Lemma mount_with_sentinel_posix (mounts : list string) :
  is_windows p = false ->
  mount_with_sentinel p mounts = find_bootsel_posix p mounts.
Proof.
  intros Hw. induction mounts as [|mount rest IH]; [done|].
  cbn [mount_with_sentinel find_bootsel_posix].
  destruct (path_exists p mount); [|exact IH].
  destruct (listdir p mount) as [folders|e]; [|done].
  rewrite folder_with_sentinel_posix by done. by rewrite IH.
Qed.

Lemma drive_roots_end_in_backslash :
  Forall (fun l => endswith (drive_root l) backslash = true) letters.
Proof. repeat constructor. Qed.

End Agreement.

(** X13: a round of [wait_for_bootsel] finds the drive the monitor's
    [find_bootsel_drive] finds on the same answers of the operating system,
    provided that, off Windows, no path named like a drive root with the
    sentinel in it exists: unlike the monitor's search it tries the drive
    letters and the mount directories on every host. *)
Theorem waiting_finds_the_monitors_drive (p : platform) (drive : string) :
  find_bootsel_drive p = Ok (Some drive) ->
  (is_windows p = false -> drive_with_sentinel p letters = None) ->
  look_for_bootsel p = Ok (Some drive).
Proof.
  unfold find_bootsel_drive, look_for_bootsel. intros Hf Hposix.
  destruct (is_windows p) eqn:Hw.
  - assert (E : drive_with_sentinel p letters = find_bootsel_windows p letters)
      by exact (drive_with_sentinel_windows p letters Hw
                  drive_roots_end_in_backslash).
    assert (H : find_bootsel_windows p letters = Some drive) by congruence.
    by rewrite E, H.
  - rewrite Hposix by done. by rewrite mount_with_sentinel_posix.
Qed.

Lemma waiting_finds_the_monitors_drive_witness :
  look_for_bootsel bootloader_present = Ok (Some "/media/RPI-RP2").
Proof.
  apply (waiting_finds_the_monitors_drive bootloader_present "/media/RPI-RP2").
  - reflexivity.
  - intros _. vm_compute. reflexivity.
Defined.

End FirmwareProofs.

(** ** More on the configuration file *)

Module ConfigMoreProofs.
Import Py Config ConfigMore.

Lemma updated_foreign (config : gmap string jvalue) (s : settings)
    (key : string) :
  key ∉ managed_keys -> updated config s !! key = config !! key.
Proof.
  unfold managed_keys. intros Hk. unfold updated.
  repeat (rewrite lookup_insert_ne; [|intros <-; apply Hk; set_solver]).
  done.
Qed.

Lemma updated_twice (config : gmap string jvalue) (s1 s2 : settings) :
  updated (updated config s1) s2 = updated config s2.
Proof.
  apply map_eq. intros key. unfold updated.
  rewrite !lookup_insert. repeat case_decide; done.
Qed.

(** X16: a save touches the seven keys of the settings and nothing else:
    any other key of the configuration keeps its value in memory and, when
    the JSON text reads back as written, in the file that is loaded at the
    next start; and of two saves in a row the second decides all seven. *)
Theorem save_keeps_other_keys
    (json_dump : jvalue -> string) (json_load : string -> result jvalue)
    (config : gmap string jvalue) (s : settings) (config_file : file)
    (key : string) :
  key ∉ managed_keys ->
  json_load (json_dump (JDict (updated config s)))
  = Ok (JDict (updated config s)) ->
  updated config s !! key = config !! key
  /\ (exists d,
        load_config json_load
          (snd (fst (save_config json_dump config s true config_file)))
        = JDict d
        /\ d !! key = config !! key)
  /\ (forall s', updated (updated config s') s = updated config s).
Proof.
  intros Hk Hjson. split_and!.
  - by apply updated_foreign.
  - exists (updated config s). cbn [save_config fst snd load_config].
    rewrite Hjson. split; [done|by apply updated_foreign].
  - intros s'. apply updated_twice.
Qed.

Lemma save_keeps_other_keys_witness :
  updated older_config saved_settings !! "window_geometry"
  = Some (JStr "800x600").
Proof.
  destruct (save_keeps_other_keys JsonText.dumps JsonText.loads older_config
              saved_settings Missing "window_geometry") as (H & _).
  - unfold managed_keys. intros Hin.
    repeat (apply elem_of_cons in Hin as [Hin|Hin]; [discriminate Hin|]).
    by apply elem_of_nil in Hin.
  - vm_compute. reflexivity.
  - exact H.
Defined.



End ConfigMoreProofs.

(** ** The two file lists *)

Module FilesProofs.
Import Py Subprocess Dispatcher Files.

Section Strings.

Lemma app_cons (c : ascii) (a b : string) :
  String c a +:+ b = String c (a +:+ b).
Proof. reflexivity. Qed.

Lemma all_chars_app (f : ascii -> bool) (a b : string) :
  all_chars f (a +:+ b) = all_chars f a && all_chars f b.
Proof.
  induction a as [|c a IH]; [done|].
  rewrite app_cons. cbn [all_chars]. by rewrite IH, andb_assoc.
Qed.

Lemma all_chars_impl (f g : ascii -> bool) (s : string) :
  (forall c, f c = true -> g c = true) ->
  all_chars f s = true -> all_chars g s = true.
Proof.
  intros Hfg. induction s as [|c s IH]; [done|].
  cbn [all_chars]. rewrite !andb_true_iff. intros [Hc Hs].
  split; [by apply Hfg|by apply IH].
Qed.

Lemma all_chars_spaces (f : ascii -> bool) (n : nat) :
  f " "%char = true -> all_chars f (spaces n) = true.
Proof.
  intros Hf. induction n as [|n IH]; [done|].
  cbn [spaces all_chars]. by rewrite Hf, IH.
Qed.

Lemma split_spaces (n : nat) (s : string) :
  split (spaces n +:+ s) = split s.
Proof.
  induction n as [|n IH]; [done|].
  cbn [spaces]. rewrite app_cons. cbn [split].
  change (isspace " ") with true. cbn iota. exact IH.
Qed.

Lemma split_cons_cons (a a' : ascii) (s : string) :
  isspace a = false -> isspace a' = false ->
  split (String a (String a' s))
  = match split (String a' s) with
    | word :: words => String a word :: words
    | [] => [String a EmptyString]
    end.
Proof.
  intros Ha Ha'.
  change (split (String a (String a' s)))
    with (if isspace a then split (String a' s)
          else if isspace a'
               then String a EmptyString :: split (String a' s)
               else match split (String a' s) with
                    | word :: words => String a word :: words
                    | [] => [String a EmptyString]
                    end).
  by rewrite Ha, Ha'.
Qed.

Lemma split_word_then_space (t : string) (c : ascii) (rest : string) :
  one_word t = true -> isspace c = true ->
  split (t +:+ String c rest) = t :: split rest.
Proof.
  unfold one_word. intros Ht Hc. apply andb_true_iff in Ht as [Hne Ht].
  induction t as [|a t IH]; [done|]. clear Hne.
  cbn [all_chars] in Ht. apply andb_true_iff in Ht as [Ha Ht].
  apply negb_true_iff in Ha. rewrite app_cons.
  destruct t as [|a' t].
  - change (EmptyString +:+ String c rest) with (String c rest).
    cbn [split]. by rewrite Ha, Hc.
  - specialize (IH eq_refl Ht).
    rewrite app_cons in IH |- *.
    cbn [all_chars] in Ht. apply andb_true_iff in Ht as [Ha' _].
    apply negb_true_iff in Ha'.
    by rewrite split_cons_cons, IH.
Qed.

Lemma split_word (t : string) : one_word t = true -> split t = [t].
Proof.
  unfold one_word. intros Ht. apply andb_true_iff in Ht as [Hne Ht].
  induction t as [|a t IH]; [done|]. clear Hne.
  cbn [all_chars] in Ht. apply andb_true_iff in Ht as [Ha Ht].
  apply negb_true_iff in Ha.
  destruct t as [|a' t].
  - cbn [split]. by rewrite Ha.
  - specialize (IH eq_refl Ht).
    cbn [all_chars] in Ht. apply andb_true_iff in Ht as [Ha' _].
    apply negb_true_iff in Ha'.
    by rewrite split_cons_cons, IH.
Qed.

Lemma digit_not_space (c : ascii) :
  is_digit c = true -> negb (isspace c) = true.
Proof. by destruct c as [[] [] [] [] [] [] [] []]. Qed.

Lemma digit_not_l (c : ascii) : is_digit c = true -> c <> "l"%char.
Proof. by intros H ->. Qed.

Lemma digits_one_word (s : string) : digits s = true -> one_word s = true.
Proof.
  unfold digits, one_word. rewrite !andb_true_iff. intros [Hne Hd].
  split; [done|]. revert Hd. apply all_chars_impl, digit_not_space.
Qed.

Lemma not_a_header (n : nat) (size rest : string) :
  digits size = true ->
  truthy_str (spaces n +:+ size +:+ rest)
  && negb (String.prefix "ls" (spaces n +:+ size +:+ rest)) = true.
Proof.
  unfold digits. intros H. apply andb_true_iff in H as [Hne Hd].
  destruct n as [|n].
  - destruct size as [|d size]; [done|].
    cbn [all_chars] in Hd. apply andb_true_iff in Hd as [Hd _].
    cbn [spaces]. change (EmptyString +:+ String d size +:+ rest)
      with (String d (size +:+ rest)).
    cbn [truthy_str andb String.prefix].
    destruct (ascii_dec "l" d) as [<-|]; [done|done].
  - cbn [spaces]. rewrite app_cons.
    cbn [truthy_str andb String.prefix].
    by destruct (ascii_dec "l" " ").
Qed.

Lemma split_line (n : nat) (size name : string) :
  digits size = true ->
  split (spaces n +:+ size +:+ String " " name) = size :: split name.
Proof.
  intros Hd. rewrite split_spaces.
  by apply split_word_then_space; [apply digits_one_word|].
Qed.

Lemma parse_line_general (n : nat) (size name : string) :
  digits size = true ->
  parse_line (spaces n +:+ size +:+ String " " name)
  = match split name with
    | [] => None
    | part :: parts => Some (str_join " " (part :: parts), size)
    end.
Proof.
  intros Hd. unfold parse_line.
  rewrite (not_a_header n size (String " " name) Hd).
  by rewrite split_line.
Qed.

Lemma parse_ls_line (f : listed) :
  well_formed f = true ->
  parse_line (ls_line f) = Some (file_name f, size_text f).
Proof.
  unfold well_formed, ls_line. intros H. apply andb_true_iff in H as [Hd Hw].
  rewrite parse_line_general by done. by rewrite split_word.
Qed.

(** *** Stripping and splitting into lines *)

Lemma rstrip_app (s t : string) :
  rstrip (s +:+ t)
  = match rstrip t with
    | EmptyString => rstrip s
    | String c r => s +:+ String c r
    end.
Proof.
  induction s as [|a s IH].
  - change (EmptyString +:+ t) with t. by destruct (rstrip t).
  - rewrite app_cons. cbn [rstrip]. rewrite IH.
    destruct (rstrip t) as [|c r]; [done|].
    rewrite app_cons. by destruct s.
Qed.

Lemma rstrip_word (t : string) :
  all_chars (fun c => negb (isspace c)) t = true -> rstrip t = t.
Proof.
  induction t as [|a t IH]; [done|].
  cbn [all_chars]. intros H. apply andb_true_iff in H as [Ha Ht].
  apply negb_true_iff in Ha. cbn [rstrip]. rewrite (IH Ht), Ha.
  by destruct t.
Qed.

Lemma rstrip_ls_line (f : listed) :
  well_formed f = true -> rstrip (ls_line f) = ls_line f.
Proof.
  unfold well_formed, ls_line, one_word. intros H.
  apply andb_true_iff in H as [_ Hw]. apply andb_true_iff in Hw as [Hne Hw].
  rewrite <- DispatcherMoreProofs.string_app_assoc.
  rewrite rstrip_app. cbn [rstrip]. rewrite (rstrip_word _ Hw).
  by destruct (file_name f).
Qed.

Lemma rstrip_keeps (h t : string) :
  rstrip h = h -> h <> EmptyString ->
  exists c r, rstrip (h +:+ t) = String c r.
Proof.
  intros Hh Hne. rewrite rstrip_app. destruct (rstrip t) as [|c r].
  - rewrite Hh. destruct h; [done|eauto].
  - destruct h; [done|]. rewrite app_cons. eauto.
Qed.

Lemma split_at_line (l rest : string) :
  all_chars no_newline l = true ->
  split_at newline (l +:+ String newline rest)
  = l :: split_at newline rest.
Proof.
  induction l as [|c l IH]; intros H.
  - change (EmptyString +:+ String newline rest)
      with (String newline rest).
    cbn [split_at]. by rewrite Ascii.eqb_refl.
  - cbn [all_chars] in H. apply andb_true_iff in H as [Hc Hl].
    apply negb_true_iff in Hc. rewrite app_cons. cbn [split_at].
    by rewrite Hc, (IH Hl).
Qed.

Lemma split_at_one_line (l : string) :
  all_chars no_newline l = true -> split_at newline l = [l].
Proof.
  induction l as [|c l IH]; intros H; [done|].
  cbn [all_chars] in H. apply andb_true_iff in H as [Hc Hl].
  apply negb_true_iff in Hc. cbn [split_at]. by rewrite Hc, (IH Hl).
Qed.

Lemma not_space_no_newline (c : ascii) :
  negb (isspace c) = true -> no_newline c = true.
Proof.
  unfold no_newline. destruct (Ascii.eqb_spec c newline) as [->|]; done.
Qed.

Lemma ls_line_no_newline (f : listed) :
  well_formed f = true -> all_chars no_newline (ls_line f) = true.
Proof.
  unfold well_formed, ls_line. intros H. apply andb_true_iff in H as [Hd Hw].
  apply digits_one_word in Hd. unfold one_word in Hd, Hw.
  apply andb_true_iff in Hd as [_ Hd]. apply andb_true_iff in Hw as [_ Hw].
  rewrite !all_chars_app. cbn [all_chars].
  rewrite (all_chars_spaces no_newline) by done.
  rewrite (all_chars_impl _ _ _ not_space_no_newline Hd).
  by rewrite (all_chars_impl _ _ _ not_space_no_newline Hw).
Qed.

Lemma ls_line_nonempty (f : listed) :
  well_formed f = true -> ls_line f <> EmptyString.
Proof.
  intros H E. pose proof (parse_ls_line f H) as Hp. by rewrite E in Hp.
Qed.

Lemma lines_of_listing (h : string) (fs : list listed) :
  h <> EmptyString -> rstrip h = h -> all_chars no_newline h = true ->
  Forall (fun f => well_formed f = true) fs ->
  split_at newline (rstrip (h +:+ String newline (ls_lines fs)))
  = h :: map ls_line fs.
Proof.
  intros Hne Hh Hnl Hfs. revert h Hne Hh Hnl.
  induction Hfs as [|f fs Hf Hfs IH]; intros h Hne Hh Hnl.
  - cbn [ls_lines map]. rewrite rstrip_app.
    change (rstrip (String newline EmptyString)) with EmptyString.
    cbn iota. rewrite Hh. by apply split_at_one_line.
  - cbn [ls_lines map].
    specialize (IH (ls_line f) (ls_line_nonempty f Hf) (rstrip_ls_line f Hf)
                  (ls_line_no_newline f Hf)).
    destruct (rstrip_keeps (ls_line f) (String newline (ls_lines fs))
                (rstrip_ls_line f Hf) (ls_line_nonempty f Hf))
      as (c & r & Hr).
    rewrite rstrip_app. cbn [rstrip]. rewrite Hr. rewrite <- Hr.
    by rewrite split_at_line, IH.
Qed.

Lemma rows_of_lines (fs : list listed) :
  Forall (fun f => well_formed f = true) fs ->
  omap parse_line (map ls_line fs)
  = map (fun f => (file_name f, size_text f)) fs.
Proof.
  induction 1 as [|f fs Hf Hfs IH]; [done|].
  cbn [map omap list_omap]. rewrite (parse_ls_line f Hf).
  f_equal. exact IH.
Qed.

Lemma rows_ls_stdout (fs : list listed) :
  Forall (fun f => well_formed f = true) fs ->
  rows (ls_stdout fs) = map (fun f => (file_name f, size_text f)) fs.
Proof.
  intros Hfs. unfold rows, strip, ls_stdout.
  change (lstrip ("ls :" +:+ String newline (ls_lines fs)))
    with ("ls :" +:+ String newline (ls_lines fs)).
  rewrite lines_of_listing by done.
  cbn [omap list_omap].
  change (parse_line "ls :") with (@None (string * string)).
  cbn iota. by apply rows_of_lines.
Qed.

End Strings.

(** X18: the listing of the device is read back exactly: when [mpremote
    ls] exits with status 0 and prints its header and one line per file,
    each the size in digits, padded by any number of spaces, a space and
    a name without whitespace, the device list gets one row per file, in
    the order printed, with that name and that size. *)
Theorem device_listing_read_back (spawn : list string -> process)
    (seconds : Q) (stderr : string) (fs : list listed) :
  spawn ls_argv = Exits seconds 0 (ls_stdout fs) stderr ->
  Forall (fun f => well_formed f = true) fs ->
  refresh_pico_files true spawn
  = ([PicoTreeClear; Run ls_argv false]
       ++ map (fun f => AfterPicoTreeInsert (file_name f) (size_text f)) fs,
     Returned).
Proof.
  intros Hs Hfs. unfold refresh_pico_files. rewrite Hs.
  cbn [negb run andb returncode stdout Z.eqb].
  rewrite rows_ls_stdout by done. by rewrite map_map.
Qed.

Lemma device_listing_read_back_witness :
  refresh_pico_files true lists_device_files
  = ([PicoTreeClear; Run ls_argv false;
      AfterPicoTreeInsert "boot.py" "139";
      AfterPicoTreeInsert "main.py" "2048";
      AfterPicoTreeInsert "lib/" "0"], Returned).
Proof.
  apply (device_listing_read_back lists_device_files 1 EmptyString
           device_files).
  - reflexivity.
  - repeat constructor.
Defined.

(** X19: a name with whitespace in it is not read back as it is: the row
    of a line holds the words of the name joined by single spaces, and a
    line whose name is all whitespace gives no row.  So a file whose name
    has two spaces in a row is listed under a name no file of the device
    has. *)
Theorem listed_name_is_normalised (n : nat) (size name : string) :
  digits size = true ->
  parse_line (spaces n +:+ size +:+ String " " name)
  = match split name with
    | [] => None
    | part :: parts => Some (str_join " " (part :: parts), size)
    end
  /\ (forall a b,
        one_word a = true -> one_word b = true ->
        name = a +:+ String " " (String " " b) ->
        parse_line (spaces n +:+ size +:+ String " " name)
        = Some (a +:+ String " " b, size)
        /\ a +:+ String " " b <> name).
Proof.
  intros Hd. split; [by apply parse_line_general|].
  intros a b Ha Hb ->. rewrite parse_line_general by done.
  rewrite split_word_then_space by done.
  change (split (String " " b)) with (split b).
  rewrite split_word by done. split; [done|].
  clear Ha. induction a as [|c a IH].
  - change (String " " b <> String " " (String " " b)).
    intros E. injection E as E. rewrite E in Hb.
    unfold one_word in Hb. cbn [truthy_str all_chars andb] in Hb.
    change (isspace " ") with true in Hb. done.
  - rewrite !app_cons. intros E. injection E as E. by apply IH.
Qed.

Lemma listed_name_is_normalised_witness :
  parse_line (spaces 9 +:+ "12" +:+ String " " "my  notes.py")
  = Some ("my notes.py", "12").
Proof.
  destruct (listed_name_is_normalised 9 "12" "my  notes.py" eq_refl)
    as [_ H].
  apply (H "my" "notes.py"); reflexivity.
Defined.

Section Suffix.

Lemma rev_app_app (a b acc : string) :
  String.rev_app (a +:+ b) acc = String.rev_app b (String.rev_app a acc).
Proof.
  revert acc. induction a as [|c a IH]; intros acc; [done|].
  rewrite app_cons. cbn [String.rev_app]. apply IH.
Qed.

Lemma rev_app_acc (s acc : string) :
  String.rev_app s acc = String.rev_app s EmptyString +:+ acc.
Proof.
  revert acc. induction s as [|c s IH]; intros acc; [done|].
  cbn [String.rev_app]. rewrite (IH (String c acc)).
  rewrite (IH (String c EmptyString)).
  by rewrite DispatcherMoreProofs.string_app_assoc.
Qed.

Lemma rev_app_rev_app (s acc acc' : string) :
  String.rev_app (String.rev_app s acc) acc'
  = String.rev_app acc (s +:+ acc').
Proof.
  revert acc acc'. induction s as [|c s IH]; intros acc acc'; [done|].
  cbn [String.rev_app]. rewrite IH. done.
Qed.

Lemma rev_rev (s : string) : String.rev (String.rev s) = s.
Proof.
  unfold String.rev. rewrite rev_app_rev_app.
  cbn [String.rev_app]. apply DispatcherMoreProofs.string_app_nil_r.
Qed.

Lemma rev_app_distr (a b : string) :
  String.rev (a +:+ b) = String.rev b +:+ String.rev a.
Proof. unfold String.rev. by rewrite rev_app_app, rev_app_acc. Qed.

Lemma prefix_app (x z : string) : String.prefix x (x +:+ z) = true.
Proof.
  induction x as [|c x IH]; [by destruct z|].
  rewrite app_cons. cbn [String.prefix].
  by destruct (ascii_dec c c).
Qed.

Lemma prefix_inv (x y : string) :
  String.prefix x y = true -> exists z, y = x +:+ z.
Proof.
  revert y. induction x as [|c x IH]; intros y H; [by exists y|].
  destruct y as [|c' y]; [done|]. cbn [String.prefix] in H.
  destruct (ascii_dec c c') as [<-|]; [|done].
  destruct (IH y H) as [z ->]. by exists z.
Qed.

Lemma endswith_iff (s suf : string) :
  endswith s suf = true <-> exists pre, s = pre +:+ suf.
Proof.
  unfold endswith. split.
  - intros H. apply prefix_inv in H as [z Hz].
    exists (String.rev z).
    rewrite <- (rev_rev s), Hz, rev_app_distr. by rewrite rev_rev.
  - intros [pre ->]. rewrite rev_app_distr. apply prefix_app.
Qed.

Lemma from_last_dot_inv (s p : string) :
  from_last_dot s = Some p -> exists pre, s = pre +:+ p.
Proof.
  revert p. induction s as [|c s IH]; intros p H; [done|].
  cbn [from_last_dot] in H. destruct (from_last_dot s) as [p'|].
  - injection H as <-. destruct (IH p' eq_refl) as [pre ->].
    by exists (String c pre).
  - destruct (Ascii.eqb c "."); [|done]. injection H as <-.
    by exists EmptyString.
Qed.

Lemma from_last_dot_app (pre t p : string) :
  from_last_dot t = Some p -> from_last_dot (pre +:+ t) = Some p.
Proof.
  intros H. induction pre as [|c pre IH]; [done|].
  rewrite app_cons. cbn [from_last_dot]. by rewrite IH.
Qed.

Lemma length_app (a b : string) :
  String.length (a +:+ b) = (String.length a + String.length b)%nat.
Proof.
  induction a as [|c a IH]; [done|].
  rewrite app_cons. cbn [String.length]. by rewrite IH.
Qed.

Lemma suffix_py_endswith (name : string) :
  suffix name = ".py" -> endswith name ".py" = true.
Proof.
  unfold suffix. intros H. apply endswith_iff.
  destruct (from_last_dot name) as [p|] eqn:E; [|done].
  destruct (_ && _); [|done]. subst p. by apply from_last_dot_inv.
Qed.

Lemma endswith_suffix_py (name : string) :
  endswith name ".py" = true -> String.prefix "." name = false ->
  suffix name = ".py".
Proof.
  intros H Hh. apply endswith_iff in H as [pre ->].
  unfold suffix. rewrite (from_last_dot_app pre ".py" ".py" eq_refl).
  rewrite length_app. destruct pre as [|c pre]; [done|].
  cbn [String.length]. 
  replace (3 <? S (String.length pre) + 3)%nat with true; [done|].
  symmetry. apply Nat.ltb_lt. lia.
Qed.

End Suffix.

Section LocalList.

Variable stat : string -> result stat_result.

Lemma local_rows_sound (items : list entry) (name : string) :
  name ∈ shown_local (local_rows stat items) ->
  File name ∈ items /\ String.prefix "." name = false
  /\ suffix name = ".py".
Proof.
  induction items as [|item items IH]; [by intros ?%elem_of_nil|].
  cbn [local_rows].
  destruct (String.prefix "." (entry_name item)) eqn:Eh.
  { intros H. destruct (IH H) as (? & ? & ?).
    split_and!; [by right|done|done]. }
  destruct (is_file item && String.eqb (suffix (entry_name item)) ".py")
    eqn:Ek.
  2:{ intros H. destruct (IH H) as (? & ? & ?).
      split_and!; [by right|done|done]. }
  apply andb_true_iff in Ek as [Hf Hs]. apply String.eqb_eq in Hs.
  destruct item as [n|n children]; [|done]. cbn [entry_name] in *.
  destruct (stat n) as [st|e]; [|by intros ?%elem_of_nil].
  unfold shown_local. cbn [omap list_omap].
  intros [->|H]%elem_of_cons.
  - split_and!; [by left|done|done].
  - destruct (IH H) as (? & ? & ?). split_and!; [by right|done|done].
Qed.

Lemma local_rows_complete (items : list entry) (name : string) :
  (forall n, exists st, stat n = Ok st) ->
  File name ∈ items -> String.prefix "." name = false ->
  suffix name = ".py" ->
  name ∈ shown_local (local_rows stat items).
Proof.
  intros Hstat Hin Hh Hs.
  induction items as [|item items IH]; [by apply elem_of_nil in Hin|].
  cbn [local_rows]. apply elem_of_cons in Hin as [<-|Hin].
  - cbn [entry_name is_file andb]. rewrite Hh, Hs.
    rewrite String.eqb_refl.
    destruct (Hstat name) as [st ->].
    unfold shown_local. cbn [omap list_omap]. by left.
  - specialize (IH Hin).
    destruct (String.prefix "." (entry_name item)); [done|].
    destruct (is_file item && String.eqb (suffix (entry_name item)) ".py");
      [|done].
    destruct (Hstat (entry_name item)) as [st ->].
    unfold shown_local. cbn [omap list_omap]. by right.
Qed.

Lemma top_level_is_copied (directory : string) (children : list entry)
    (name : string) :
  File name ∈ children -> endswith name ".py" = true ->
  join directory name ∈ walk_py_files directory children.
Proof.
  intros Hin He. rewrite DispatcherMoreProofs.walk_py_files_eq.
  apply elem_of_app. left. unfold DispatcherMore.picked.
  apply list_elem_of_In, in_map, list_elem_of_In.
  apply list_elem_of_filter. split; [done|].
  unfold filenames. apply list_elem_of_omap. by exists (File name).
Qed.

End LocalList.

(** X20: the local list shows the files of the project directory itself
    whose names end in ".py" and do not start with a dot, and each of them
    is a file the recursive directory sync copies.  A hidden Python file is
    copied by that sync all the same, and is not in the list. *)
Theorem local_list_and_recursive_sync (dir_var : string)
    (iterdir : string -> result (list entry))
    (stat : string -> result stat_result) (children : list entry) :
  truthy_str dir_var = true ->
  iterdir dir_var = Ok children ->
  (forall name,
     name ∈ shown_local (refresh_local_files dir_var iterdir stat) ->
     File name ∈ children /\ String.prefix "." name = false
     /\ endswith name ".py" = true
     /\ join dir_var name ∈ walk_py_files dir_var children)
  /\ ((forall n, exists st, stat n = Ok st) ->
      forall name,
        File name ∈ children -> String.prefix "." name = false ->
        endswith name ".py" = true ->
        name ∈ shown_local (refresh_local_files dir_var iterdir stat))
  /\ (forall name,
        File name ∈ children -> String.prefix "." name = true ->
        endswith name ".py" = true ->
        join dir_var name ∈ walk_py_files dir_var children
        /\ name ∉ shown_local (refresh_local_files dir_var iterdir stat)).
Proof.
  intros Hd Hi.
  assert (forall name,
            name ∈ shown_local (refresh_local_files dir_var iterdir stat) ->
            File name ∈ children /\ String.prefix "." name = false
            /\ suffix name = ".py") as Hsound.
  { intros name. unfold refresh_local_files. rewrite Hd, Hi. cbn [negb].
    unfold shown_local. cbn [omap list_omap]. intros H.
    apply local_rows_sound in H as (Hin & Hh & Hs).
    by rewrite merge_sort_Permutation in Hin. }
  split_and!.
  - intros name H. destruct (Hsound name H) as (Hin & Hh & Hs).
    pose proof (suffix_py_endswith name Hs) as He.
    split_and!; [done|done|done|by apply top_level_is_copied].
  - intros Hstat name Hin Hh He. unfold refresh_local_files.
    rewrite Hd, Hi. cbn [negb]. unfold shown_local. cbn [omap list_omap].
    apply local_rows_complete; [done| |done|by apply endswith_suffix_py].
    by rewrite merge_sort_Permutation.
  - intros name Hin Hh He. split; [by apply top_level_is_copied|].
    intros H. destruct (Hsound name H) as (_ & Hh' & _). congruence.
Qed.

Lemma local_list_and_recursive_sync_witness :
  join "/home/u/proj" ".secrets.py"
    ∈ walk_py_files "/home/u/proj" local_project
  /\ ".secrets.py"
       ∉ shown_local (refresh_local_files "/home/u/proj"
                        (fun _ => Ok local_project) stat_ok).
Proof.
  destruct (local_list_and_recursive_sync "/home/u/proj"
              (fun _ => Ok local_project) stat_ok local_project
              eq_refl eq_refl) as (_ & _ & H).
  apply (H ".secrets.py"); [|reflexivity|reflexivity].
  unfold local_project. apply list_elem_of_In. cbn. tauto.
Defined.

Section Deleting.

Variable spawn : list string -> process.


Lemma delete_each_aborted (done_ : list string) (codes : list Z)
    (bad : string) (rest : list string) (e : string) :
  Forall2 (rm_exits spawn) done_ codes ->
  spawn (rm_argv bad) = FailsToStart e ->
  delete_each spawn (done_ ++ bad :: rest)
  = (deletions done_ codes ++ [Run (rm_argv bad) true],
     Raised (OtherError e)).
Proof.
  unfold deletions. intros Hd Hb.
  induction Hd as [|name rc done_ codes (s & out & err & Hx) _ IH].
  - cbn [app delete_each]. by rewrite Hb.
  - cbn [app delete_each zip_with concat]. rewrite Hx, IH. unfold run.
    cbn [andb]. unfold deletion_log.
    by destruct (rc =? 0)%Z.
Qed.

End Deleting.



(** X22: a deletion whose process cannot be started is not handled: the
    method ends on that exception at the first such file, the files
    selected after it are not attempted, nothing is logged for it and the
    device list is not refreshed. *)
Theorem deletion_that_cannot_start (spawn : list string -> process)
    (pico_connected : bool) (done_ : list string) (codes : list Z)
    (bad : string) (rest : list string) (e : string) :
  Forall2 (rm_exits spawn) done_ codes ->
  spawn (rm_argv bad) = FailsToStart e ->
  delete_selected (done_ ++ bad :: rest) true pico_connected spawn
  = (Show (ConfirmDelete (length (done_ ++ bad :: rest)))
       :: deletions done_ codes ++ [Run (rm_argv bad) true],
     Raised (OtherError e), Returned).
Proof.
  intros Hd Hb. unfold delete_selected.
  rewrite (delete_each_aborted spawn _ _ _ rest _ Hd Hb).
  by destruct done_.
Qed.

Lemma deletion_that_cannot_start_witness :
  delete_selected ["a.py"; "b.py"] true true no_mpremote
  = ([Show (ConfirmDelete 2); Run (rm_argv "a.py") true],
     Raised (OtherError "FileNotFoundError"), Returned).
Proof.
  apply (deletion_that_cannot_start no_mpremote true [] [] "a.py" ["b.py"]
           "FileNotFoundError").
  - constructor.
  - reflexivity.
Defined.

Section Uploading.

Variable path_glob :
  string -> list entry -> string -> result (list (string * bool)).
Variable config : gmap string jvalue.
Variable dir_var : string.

Lemma queued_upload (selected : list string) :
  selected <> [] ->
  queued (upload_selected selected dir_var)
  = map (fun filename => SingleFile (join dir_var filename)) selected.
Proof.
  intros Hne. unfold upload_selected. destruct selected as [|n ns]; [done|].
  clear Hne. generalize (n :: ns). intros l.
  induction l as [|x l IH]; [done|].
  unfold queued. cbn [map omap list_omap]. f_equal. exact IH.
Qed.

Lemma copies_single_file (w : world) (filepath : string) :
  ready w ->
  exists effs,
    process_item path_glob config w (SingleFile filepath) = (effs, Returned)
    /\ copies effs = [copy_of filepath].
Proof.
  intros [Hc Hx]. unfold process_item, sync_single_file. rewrite Hc.
  cbn [negb].
  destruct (Hx (cp_argv filepath (basename filepath)))
    as (s & rc & out & err & ->).
  unfold run. cbn [andb]. destruct (rc =? 0)%Z; cbn [negb];
    eexists; (split; [reflexivity|done]).
Qed.

Lemma upload_drained (ws : list world) (selected : list string) :
  length ws = length selected ->
  Forall ready ws ->
  Forall (fun n => DispatcherMore.plain_name n = true) selected ->
  exists effs,
    process_sync_queue path_glob config ws
      (map (fun filename => SingleFile (join dir_var filename)) selected)
    = ([], effs, Returned)
    /\ copies effs
       = map (fun n => cp_argv (join dir_var n) n) selected.
Proof.
  intros Hl Hws. revert selected Hl.
  induction Hws as [|w ws Hw Hws IH]; intros [|n ns] Hl Hn;
    try discriminate Hl.
  - by exists [].
  - inversion Hn as [|? ? Hp Hns]; subst.
    injection Hl as Hl. destruct (IH ns Hl Hns) as (effs' & Hq & Hc).
    destruct (copies_single_file w (join dir_var n) Hw) as (effs & Hi & Hci).
    exists (effs ++ effs'). cbn [map process_sync_queue].
    rewrite Hi, Hq. split; [done|].
    rewrite DispatcherProofs.copies_app, Hci, Hc. unfold copy_of.
    by rewrite DispatcherMoreProofs.basename_join.
Qed.

End Uploading.

(** X23: Upload Selected puts one single-file item per selected row on the
    queue, and the consumer loop, with the device connected and every copy
    running to its exit, turns them into one copy each, in the order of the
    selection: the file of that name in the project directory goes to the
    top level of the device under the same name, whatever the exit status
    of the copies before it. *)
Theorem upload_copies_the_selection
    (path_glob : string -> list entry -> string -> result (list (string * bool)))
    (config : gmap string jvalue) (dir_var : string)
    (selected : list string) (ws : list world) :
  selected <> [] ->
  Forall (fun n => DispatcherMore.plain_name n = true) selected ->
  length ws = length selected ->
  Forall ready ws ->
  exists effs,
    process_sync_queue path_glob config ws
      (queued (upload_selected selected dir_var))
    = ([], effs, Returned)
    /\ copies effs = map (fun n => cp_argv (join dir_var n) n) selected.
Proof.
  intros Hne Hn Hl Hws. rewrite queued_upload by done.
  by apply upload_drained.
Qed.

Lemma upload_copies_the_selection_witness :
  exists effs,
    process_sync_queue (fun _ _ _ => Ok []) ∅ [middle_fails; middle_fails]
      (queued (upload_selected ["b.py"; "a.py"] "/home/u/proj"))
    = ([], effs, Returned)
    /\ copies effs
       = [cp_argv "/home/u/proj/b.py" "b.py";
          cp_argv "/home/u/proj/a.py" "a.py"].
Proof.
  apply (upload_copies_the_selection (fun _ _ _ => Ok []) ∅ "/home/u/proj"
           ["b.py"; "a.py"] [middle_fails; middle_fails]).
  - done.
  - repeat constructor.
  - reflexivity.
  - repeat constructor; intros argv; unfold middle_fails; cbn [spawn];
      case_bool_decide; by eexists _, _, _, _.
Defined.

End FilesProofs.

(** ** Watching the project directory *)

Module WatchProofs.
Import Py Subprocess Dispatcher Config Watch.

Section Observers.

Lemma tidy_same (st st' : state) :
  file_observer st' = file_observer st -> observers st' = observers st ->
  tidy st -> tidy st'.
Proof. unfold tidy. by intros -> ->. Qed.

Lemma none_alive_same (st st' : state) :
  observers st' = observers st -> none_alive st -> none_alive st'.
Proof. unfold none_alive. by intros ->. Qed.

Lemma none_alive_tidy (st : state) : none_alive st -> tidy st.
Proof.
  intros H i o Ho Ha. by rewrite (H i o Ho) in Ha.
Qed.

Lemma stop_none_alive (st : state) :
  tidy st -> none_alive (stop_file_watching st).1.
Proof.
  intros Ht. unfold stop_file_watching, observer_alive.
  assert (forall k ok, observers st !! k = Some ok -> is_alive ok = true ->
                       file_observer st = Some k) as Hk by exact Ht.
  destruct (file_observer st) as [i|].
  - destruct (observers st !! i) as [o|] eqn:Eo.
    + destruct (is_alive o) eqn:Ea; cbn [fst]; intros k ok Hok.
      * cbn [observers set_observers] in Hok.
        rewrite list_lookup_alter in Hok.
        destruct (decide (i = k)) as [<-|Hne].
        -- rewrite Eo in Hok. by injection Hok as <-.
        -- destruct (is_alive ok) eqn:Eok; [|done].
           specialize (Hk k ok Hok Eok). congruence.
      * destruct (is_alive ok) eqn:Eok; [|done].
        specialize (Hk k ok Hok Eok). congruence.
    + cbn [fst]. intros k ok Hok.
      destruct (is_alive ok) eqn:Eok; [|done].
      specialize (Hk k ok Hok Eok). congruence.
  - cbn [fst]. intros k ok Hok.
    destruct (is_alive ok) eqn:Eok; [|done].
    specialize (Hk k ok Hok Eok). congruence.
Qed.

Lemma stop_rest (st : state) :
  vars (stop_file_watching st).1 = vars st
  /\ config (stop_file_watching st).1 = config st
  /\ config_file (stop_file_watching st).1 = config_file st
  /\ pico_connected (stop_file_watching st).1 = pico_connected st
  /\ sync_queue (stop_file_watching st).1 = sync_queue st.
Proof.
  unfold stop_file_watching. destruct (file_observer st); [|done].
  by destruct (observer_alive st).
Qed.

Lemma stop_tidy (st : state) : tidy st -> tidy (stop_file_watching st).1.
Proof. intros H. by apply none_alive_tidy, stop_none_alive. Qed.

Lemma snoc_tidy (st : state) (o : observer) :
  none_alive st ->
  tidy (set_observers st (Some (length (observers st)))
                      (observers st ++ [o])).
Proof.
  intros Hn k ok Hok Ha. cbn [observers file_observer set_observers] in *.
  apply lookup_snoc_Some in Hok as [[_ Hok]|[-> _]]; [|done].
  by rewrite (Hn k ok Hok) in Ha.
Qed.

Lemma start_tidy (h : host) (st : state) :
  tidy st -> tidy (start_file_watching h st).1.1.
Proof.
  intros Ht. unfold start_file_watching.
  destruct (negb (truthy_str _)); [done|].
  destruct (negb (path_exists h _)); [done|].
  pose proof (stop_none_alive st Ht) as Hn.
  destruct (stop_file_watching st) as [st1 effs]. cbn [fst] in Hn.
  destruct (observer_starts h); cbn [fst]; by apply snoc_tidy.
Qed.

Lemma start_rest (h : host) (st : state) :
  vars (start_file_watching h st).1.1 = vars st
  /\ config (start_file_watching h st).1.1 = config st
  /\ config_file (start_file_watching h st).1.1 = config_file st
  /\ pico_connected (start_file_watching h st).1.1 = pico_connected st
  /\ sync_queue (start_file_watching h st).1.1 = sync_queue st.
Proof.
  unfold start_file_watching.
  destruct (negb (truthy_str _)); [done|].
  destruct (negb (path_exists h _)); [done|].
  pose proof (stop_rest st) as Hs.
  destruct (stop_file_watching st) as [st1 effs]. cbn [fst] in Hs.
  by destruct (observer_starts h).
Qed.

Lemma sync_all_tidy (st : state) : tidy st -> tidy (sync_all_files st).1.
Proof.
  unfold sync_all_files. by destruct (negb (truthy_str _)).
Qed.

Variable json_dump : jvalue -> string.

Lemma save_tidy (h : host) (st : state) :
  tidy st -> tidy (save_config json_dump h st).1.
Proof.
  unfold save_config, Config.save_config. by destruct (writable h).
Qed.

Lemma restart_tidy (h : host) (st : state) :
  tidy st -> tidy (restart h st).1.1.
Proof.
  intros Ht. unfold restart.
  pose proof (stop_tidy st Ht) as H1.
  destruct (stop_file_watching st) as [st1 effs1]. cbn [fst] in H1.
  pose proof (start_tidy h st1 H1) as H2.
  by destruct (start_file_watching h st1) as [[st2 effs2] e].
Qed.

Lemma toggle_tidy (h : host) (st : state) :
  tidy st -> tidy (toggle_auto_sync json_dump h st).1.1.
Proof.
  intros Ht. unfold toggle_auto_sync.
  destruct (auto_sync_enabled (vars st)).
  - destruct (pico_connected st && truthy_str (dir_var (vars st))).
    + pose proof (start_tidy h st Ht) as H1.
      destruct (start_file_watching h st) as [[st1 effs1] e].
      cbn [fst] in H1. destruct e; [|done|done].
      pose proof (sync_all_tidy st1 H1) as H2.
      destruct (sync_all_files st1) as [st2 effs2]. cbn [fst] in H2.
      pose proof (save_tidy h st2 H2) as H3.
      by destruct (save_config json_dump h st2).
    + pose proof (save_tidy h st Ht) as H3.
      by destruct (save_config json_dump h st).
  - pose proof (stop_tidy st Ht) as H1.
    destruct (stop_file_watching st) as [st1 effs1]. cbn [fst] in H1.
    pose proof (save_tidy h st1 H1) as H3.
    by destruct (save_config json_dump h st1).
Qed.

Lemma select_tidy (h : host) (st : state) (directory : string) :
  tidy st -> tidy (select_directory json_dump h st directory).1.1.
Proof.
  intros Ht. unfold select_directory.
  destruct (negb (truthy_str directory)); [done|].
  assert (tidy (set_vars st (set_dir (vars st) directory))) as H0 by done.
  pose proof (save_tidy h _ H0) as H1.
  destruct (save_config json_dump h _) as [st1 e1]. cbn [fst] in H1.
  destruct e1; [|done|done].
  destruct (pico_connected st1 && auto_sync_enabled (vars st1)); [|done].
  pose proof (restart_tidy h st1 H1) as H2.
  destruct (restart h st1) as [[st2 effs2] e2]. cbn [fst] in H2.
  destruct e2; [|done|done].
  pose proof (sync_all_tidy st2 H2) as H3.
  by destruct (sync_all_files st2).
Qed.

Lemma save_settings_tidy (h : host) (st : state) :
  tidy st -> tidy (save_settings json_dump h st).1.1.
Proof.
  intros Ht. unfold save_settings.
  pose proof (save_tidy h _ Ht) as H1.
  destruct (save_config json_dump h _) as [st1 e1]. cbn [fst] in H1.
  destruct e1; [|done|done].
  destruct (pico_connected st1 && auto_sync_enabled (vars st1)); [|done].
  pose proof (restart_tidy h st1 H1) as H2.
  by destruct (restart h st1) as [[st2 effs2] e2].
Qed.

Lemma connected_tidy (h : host) (st : state) :
  tidy st -> tidy (on_pico_connected h st).1.1.
Proof.
  intros Ht. unfold on_pico_connected.
  destruct (auto_sync_enabled (vars st) && truthy_str (dir_var (vars st)));
    [|done].
  pose proof (start_tidy h st Ht) as H1.
  destruct (start_file_watching h st) as [[st1 effs1] e].
  cbn [fst] in H1. destruct e; [|done|done].
  pose proof (sync_all_tidy st1 H1) as H2.
  by destruct (sync_all_files st1).
Qed.

Lemma disconnected_none_alive (st : state) :
  tidy st -> none_alive (on_pico_disconnected st).1.
Proof.
  intros Ht. unfold on_pico_disconnected.
  pose proof (stop_none_alive st Ht) as H1.
  by destruct (stop_file_watching st).
Qed.

Lemma closing_none_alive (h : host) (st : state) :
  tidy st -> none_alive (on_closing json_dump h st).1.1.
Proof.
  intros Ht. unfold on_closing.
  pose proof (stop_none_alive st Ht) as H1.
  destruct (stop_file_watching st) as [st1 effs]. cbn [fst] in H1.
  unfold save_config, Config.save_config. by destruct (writable h).
Qed.

Lemma dies_tidy (st : state) (i : nat) :
  tidy st ->
  tidy (set_observers st (file_observer st) (alter stopped i (observers st))).
Proof.
  intros Ht k ok Hok Ha. cbn [observers file_observer set_observers] in *.
  rewrite list_lookup_alter in Hok.
  destruct (decide (i = k)) as [<-|Hne]; [|by apply (Ht k ok)].
  destruct (observers st !! i) as [o|]; [|done].
  by injection Hok as <-.
Qed.

Lemma step_tidy (h : host) (st : state) (ev : event) :
  tidy st -> tidy (step json_dump h st ev).1.1.
Proof.
  intros Ht. destruct ev as [b| | | |directory|tab| | |filepath|i|];
    cbn [step].
  - done.
  - by apply connected_tidy.
  - pose proof (disconnected_none_alive st Ht) as H.
    destruct (on_pico_disconnected st). by apply none_alive_tidy.
  - by apply toggle_tidy.
  - by apply select_tidy.
  - done.
  - by apply save_settings_tidy.
  - unfold manual_sync. destruct (negb (truthy_str _)); [done|].
    pose proof (sync_all_tidy st Ht) as H. by destruct (sync_all_files st).
  - done.
  - by apply dies_tidy.
  - by apply none_alive_tidy, closing_none_alive.
Qed.

Lemma after_tidy (st : state) (history : list (host * event)) :
  tidy st -> tidy (after json_dump st history).
Proof.
  revert st. induction history as [|[h ev] history IH]; intros st Ht; [done|].
  cbn [after]. by apply IH, step_tidy.
Qed.

Lemma started_tidy (v : settings) (c : gmap string jvalue) (f : file) :
  tidy (started v c f).
Proof. intros i o Ho. cbn [observers started] in Ho. by destruct i. Qed.

End Observers.

(** X24: the project directory is never watched twice: after any history
    of events from the start of the program (clicks, dialogs, connections
    and disconnections in any order, observers that fail to start or die,
    a configuration file that cannot be written), at most one observer's
    thread runs, and it is the one [self.file_observer] refers to. *)
Theorem one_observer_at_a_time (json_dump : jvalue -> string)
    (v : settings) (c : gmap string jvalue) (f : file)
    (history : list (host * event)) (i j : nat) (oi oj : observer) :
  observers (after json_dump (started v c f) history) !! i = Some oi ->
  observers (after json_dump (started v c f) history) !! j = Some oj ->
  is_alive oi = true -> is_alive oj = true ->
  i = j
  /\ file_observer (after json_dump (started v c f) history) = Some i.
Proof.
  intros Hi Hj Hai Haj.
  pose proof (after_tidy json_dump _ history (started_tidy v c f)) as Ht.
  pose proof (Ht i oi Hi Hai) as Ei. pose proof (Ht j oj Hj Haj) as Ej.
  split; [congruence|done].
Qed.

Lemma one_observer_at_a_time_witness :
  file_observer (after JsonText.dumps at_start connect_then_save) = Some 1.
Proof.
  apply (one_observer_at_a_time JsonText.dumps saved_settings ∅ Missing
           connect_then_save 1 1
           {| watched := "/home/u/proj"; recursive := false;
              is_alive := true |}
           {| watched := "/home/u/proj"; recursive := false;
              is_alive := true |});
    vm_compute; reflexivity.
Defined.

(** X25: the disconnection handler stops the watch and does nothing to the
    queue: after any history of events, once [on_pico_disconnected] has
    run no observer's thread runs, while the items queued before it are all
    still queued, in order. *)
Theorem disconnection_stops_the_watch (json_dump : jvalue -> string)
    (v : settings) (c : gmap string jvalue) (f : file)
    (history : list (host * event)) :
  none_alive
    (on_pico_disconnected (after json_dump (started v c f) history)).1
  /\ watching
       (on_pico_disconnected (after json_dump (started v c f) history)).1
     = None
  /\ sync_queue
       (on_pico_disconnected (after json_dump (started v c f) history)).1
     = sync_queue (after json_dump (started v c f) history).
Proof.
  pose proof (after_tidy json_dump _ history (started_tidy v c f)) as Ht.
  pose proof (disconnected_none_alive _ Ht) as Hn.
  split_and!; [done| |].
  - unfold watching. destruct (file_observer _) as [i|]; [|done].
    destruct (observers _ !! i) as [o|] eqn:Eo; [|done].
    by rewrite (Hn i o Eo).
  - unfold on_pico_disconnected.
    pose proof (stop_rest (after json_dump (started v c f) history))
      as (_ & _ & _ & _ & Hq).
    by destruct (stop_file_watching _).
Qed.

Section Starting.

Lemma start_watching (h : host) (st : state) :
  truthy_str (dir_var (vars st)) = true ->
  path_exists h (dir_var (vars st)) = true ->
  observer_starts h = true ->
  watching (start_file_watching h st).1.1 = Some (new_observer st)
  /\ (start_file_watching h st).2 = Returned.
Proof.
  intros Hd Hp Hs. unfold start_file_watching. rewrite Hd, Hp, Hs.
  cbn [negb]. pose proof (stop_rest st) as (Hv & Hc & _).
  destruct (stop_file_watching st) as [st1 effs]. cbn [fst snd] in *.
  split; [|done]. unfold watching.
  cbn [file_observer observers set_observers].
  rewrite list_lookup_middle by done. cbn [is_alive].
  unfold new_observer. by rewrite ?Hv, ?Hc.
Qed.

Lemma sync_all_watching (st : state) :
  watching (sync_all_files st).1 = watching st
  /\ vars (sync_all_files st).1 = vars st
  /\ config (sync_all_files st).1 = config st
  /\ sync_queue (sync_all_files st).1
     = if truthy_str (dir_var (vars st))
       then sync_queue st ++ [FullDirectory (dir_var (vars st))]
       else sync_queue st.
Proof.
  unfold sync_all_files. by destruct (truthy_str _).
Qed.

End Starting.

(** X26: when a board connects with Auto Sync on and a project directory
    set, one full sync of that directory is put at the end of the queue,
    whether or not the directory can be watched.  If the directory exists,
    a new observer watches it from then on, recursively exactly when the
    saved configuration says to sync subdirectories, which is also when
    the batch of that full sync is collected recursively; if it does not
    exist, what was watched before stays as it was. *)
Theorem connection_queues_a_full_sync (h : host) (st : state) :
  auto_sync_enabled (vars st) = true ->
  truthy_str (dir_var (vars st)) = true ->
  observer_starts h = true ->
  (on_pico_connected h st).2 = Returned
  /\ sync_queue (on_pico_connected h st).1.1
     = sync_queue st ++ [FullDirectory (dir_var (vars st))]
  /\ watching (on_pico_connected h st).1.1
     = (if path_exists h (dir_var (vars st))
        then Some (new_observer st) else watching st)
  /\ (forall path_glob w,
        recursive (new_observer st) = true ->
        batch_files path_glob (config (on_pico_connected h st).1.1) w
                    (dir_var (vars st))
        = Ok (walk_py_files (dir_var (vars st))
                            (tree w (dir_var (vars st))))).
Proof.
  intros Ha Hd Hs. unfold on_pico_connected. rewrite Ha, Hd. cbn [andb].
  pose proof (start_rest h st) as (Hv & Hc & _ & _ & Hq).
  assert (watching (start_file_watching h st).1.1
          = (if path_exists h (dir_var (vars st))
             then Some (new_observer st) else watching st)
          /\ (start_file_watching h st).2 = Returned) as [Hw He].
  { destruct (path_exists h (dir_var (vars st))) eqn:Hp.
    - by apply start_watching.
    - unfold start_file_watching. by rewrite Hd, Hp. }
  destruct (start_file_watching h st) as [[st1 effs1] e].
  cbn [fst snd] in *. subst e.
  pose proof (sync_all_watching st1) as (Hw2 & Hv2 & Hc2 & Hq2).
  destruct (sync_all_files st1) as [st2 effs2]. cbn [fst snd] in *.
  rewrite Hv, Hd in Hq2. split_and!; [done|congruence|congruence|].
  intros path_glob w Hr. unfold batch_files. rewrite Hc2, Hc.
  unfold new_observer in Hr. cbn [recursive] in Hr. by rewrite Hr.
Qed.

Lemma connection_queues_a_full_sync_witness :
  sync_queue (on_pico_connected friendly at_start).1.1
  = [FullDirectory "/home/u/proj"].
Proof.
  destruct (connection_queues_a_full_sync friendly at_start)
    as (_ & H & _); [reflexivity|reflexivity|reflexivity|].
  exact H.
Defined.

(** X27: closing the window stops the watch in every case, but the window
    is destroyed only if the configuration file can be written: if it
    cannot, [on_closing] ends on that exception before [root.destroy()]
    and the window stays. *)
Theorem closing_needs_a_writable_file (json_dump : jvalue -> string)
    (v : settings) (c : gmap string jvalue) (f : file)
    (history : list (host * event)) (h : host) :
  none_alive
    (on_closing json_dump h (after json_dump (started v c f) history)).1.1
  /\ (if writable h
      then (on_closing json_dump h
              (after json_dump (started v c f) history)).2 = Returned
           /\ last (on_closing json_dump h
                      (after json_dump (started v c f) history)).1.2
              = Some RootDestroy
      else (on_closing json_dump h
              (after json_dump (started v c f) history)).2
           = Raised (OtherError "PermissionError")
           /\ filter (fun e => is_destroy e = true)
                (on_closing json_dump h
                   (after json_dump (started v c f) history)).1.2 = []).
Proof.
  pose proof (after_tidy json_dump _ history (started_tidy v c f)) as Ht.
  split; [by apply closing_none_alive|].
  unfold on_closing, stop_file_watching.
  generalize (after json_dump (started v c f) history). intros st.
  unfold save_config, Config.save_config.
  destruct (file_observer st); [destruct (observer_alive st)|];
    by destruct (writable h).
Qed.

Section Saving.

Variable json_dump : jvalue -> string.

Lemma saved_sync_subdirs (c : gmap string jvalue) (s : settings) :
  Json.truthy (Json.get (updated c s) "sync_subdirs" (JBool true))
  = sync_subdirs_var s.
Proof.
  unfold Json.get, updated.
  rewrite !lookup_insert_ne by done. by rewrite lookup_insert_eq.
Qed.

Lemma restart_watching (h : host) (st : state) :
  truthy_str (dir_var (vars st)) = true ->
  path_exists h (dir_var (vars st)) = true ->
  observer_starts h = true ->
  watching (restart h st).1.1 = Some (new_observer st)
  /\ (restart h st).2 = Returned
  /\ config (restart h st).1.1 = config st
  /\ vars (restart h st).1.1 = vars st.
Proof.
  intros Hd Hp Hs. unfold restart.
  pose proof (stop_rest st) as (Hv & Hc & _).
  destruct (stop_file_watching st) as [st1 effs1]. cbn [fst] in *.
  rewrite <- Hv in Hd, Hp.
  pose proof (start_watching h st1 Hd Hp Hs) as [Hw He].
  pose proof (start_rest h st1) as (Hv1 & Hc1 & _).
  destruct (start_file_watching h st1) as [[st2 effs2] e].
  cbn [fst snd] in *. unfold new_observer in *.
  rewrite Hw. by rewrite Hv1, Hc1, Hv, Hc.
Qed.

End Saving.

(** X28: what is set on the Settings tab takes effect when it is saved, not
    before: editing the tab changes neither the configuration the sync
    reads nor the watch; Save Settings, with a board connected, Auto Sync
    on and the project directory there to watch, writes the seven values
    into the configuration and replaces the watch by one that is recursive
    exactly when the Sync Subdirectories box is ticked. *)
Theorem settings_apply_when_saved (json_dump : jvalue -> string)
    (h : host) (st : state) (tab : settings) :
  writable h = true ->
  observer_starts h = true ->
  pico_connected st = true ->
  auto_sync_enabled (vars st) = true ->
  truthy_str (dir_var (vars st)) = true ->
  path_exists h (dir_var (vars st)) = true ->
  config (step json_dump h st (EditSettings tab)).1.1 = config st
  /\ watching (step json_dump h st (EditSettings tab)).1.1 = watching st
  /\ (save_settings json_dump h st).2 = Returned
  /\ config (save_settings json_dump h st).1.1
     = updated (config st) (vars st)
  /\ watching (save_settings json_dump h st).1.1
     = Some {| watched := dir_var (vars st);
               recursive := sync_subdirs_var (vars st);
               is_alive := true |}.
Proof.
  intros Hw Hs Hc Ha Hd Hp. split_and!; [done|done|..];
    unfold save_settings, save_config, Config.save_config;
    rewrite Hw; cbn [set_saved pico_connected vars]; rewrite Hc, Ha;
    cbn [andb];
    pose proof (restart_watching h
                  (set_saved st (updated (config st) (vars st))
                     (Content (json_dump (JDict (updated (config st)
                                                   (vars st))))))
                  Hd Hp Hs) as (Hwa & He & Hco & Hv);
    destruct (restart h _) as [[st2 effs2] e]; cbn [fst snd] in *.
  - done.
  - done.
  - rewrite Hwa. unfold new_observer. cbn [vars config set_saved].
    by rewrite saved_sync_subdirs.
Qed.

Lemma settings_apply_when_saved_witness :
  watching (save_settings JsonText.dumps friendly
              (set_connected at_start true)).1.1
  = Some {| watched := "/home/u/proj"; recursive := false;
            is_alive := true |}.
Proof.
  destruct (settings_apply_when_saved JsonText.dumps friendly
              (set_connected at_start true) saved_settings)
    as (_ & _ & _ & _ & H);
    [reflexivity|reflexivity|reflexivity|reflexivity|reflexivity
    |reflexivity|exact H].
Defined.

End WatchProofs.

(** ** Flashing from the dialog *)

Module FlashingProofs.
Import Py Monitor Firmware Flashing.

Section Actions.

Lemma removed_app (a b : list action) :
  removed (a ++ b) = removed a ++ removed b.
Proof. unfold removed. by rewrite omap_app. Qed.

Lemma removed_waited (effs : list effect) : removed (map Waited effs) = [].
Proof. induction effs as [|e effs IH]; [done|exact IH]. Qed.

Lemma seconds_waited_app (a b : list action) :
  seconds_waited (a ++ b) = seconds_waited a + seconds_waited b.
Proof. unfold seconds_waited. by rewrite filter_app, length_app. Qed.

Lemma seconds_waited_waited (effs : list effect) :
  seconds_waited (map Waited effs) = sleeps effs.
Proof.
  unfold seconds_waited, sleeps.
  induction effs as [|e effs IH]; [done|].
  cbn [map]. rewrite !filter_cons. cbn [slept].
  destruct (decide (is_sleep e = true)); cbn [length]; by rewrite IH.
Qed.

Lemma flash_onto_waits (w : world) (filename drive : string) :
  seconds_waited (flash_onto w filename drive) = 0.
Proof.
  unfold flash_onto. destruct (copy2 w filename drive); [|done].
  by destruct (remove w filename).
Qed.

End Actions.

(** X29: [download_and_flash] calls [os.remove] on the image it
    downloaded in one case only: the image was retrieved, the drive
    appeared within the wait and the copy onto it went through.  After a
    failed download, a wait that found no drive or raised, or a failed copy,
    the file is left where it was downloaded.  In every case the wait
    sleeps at most 60 seconds and the last two actions stop the progress
    bar and set the label to Idle. *)
Theorem image_removed_only_after_flashing (w : world) (url : string) :
  removed (download_and_flash w url)
  = (if flashes w url then [url_filename url] else [])
  /\ seconds_waited (download_and_flash w url) <= 60
  /\ exists actions,
       download_and_flash w url = actions ++ [ProgressStop; Label Idle].
Proof.
  split_and!.
  - unfold download_and_flash, flashes.
    destruct (urlretrieve w url (url_filename url)) as [u|e]; [|done].
    rewrite !removed_app, removed_waited.
    destruct (snd (wait_for_bootsel (host w))) as [[drive|]|e];
      [|done|done].
    unfold flash_onto.
    destruct (copy2 w (url_filename url) drive) as [u'|e]; [|done].
    by destruct (remove w (url_filename url)).
  - pose proof (FirmwareProofs.wait_rounds_spec (host w) 60 0) as [Hs _].
    unfold download_and_flash.
    destruct (urlretrieve w url (url_filename url)) as [u|e];
      [|apply Nat.le_0_l].
    rewrite !seconds_waited_app, seconds_waited_waited.
    change (seconds_waited [Label DownloadingFirmware; ProgressStart;
              Say (Downloading (url_filename url)) INFO;
              Retrieve url (url_filename url)]) with 0.
    change (seconds_waited [Say (Downloaded (url_filename url)) SUCCESS;
              Show EnterBootselMode; Label WaitingForBootsel]) with 0.
    change (seconds_waited [ProgressStop; Label Idle]) with 0.
    assert (seconds_waited
              match snd (wait_for_bootsel (host w)) with
              | Ok (Some drive) => flash_onto w (url_filename url) drive
              | Ok None => [Say NoBootselDrive ERROR; Show NotDetected]
              | Raise e => failed e
              end = 0) as ->.
    { destruct (snd (wait_for_bootsel (host w))) as [[drive|]|e];
        [apply flash_onto_waits|done|done]. }
    unfold wait_for_bootsel. lia.
  - unfold download_and_flash. rewrite app_assoc. by eexists.
Qed.

End FlashingProofs.
